(** * Skardu Organic Store: cart, session, routing and checkout state

    A shallow embedding of the state containers of the storefront
    (the component file that holds [CartProvider], [AuthProvider],
    [CheckoutPage] and [App]) and the properties of its specification.

    Conventions of the embedding.
    - A JavaScript [number] that the program uses as an identifier, a
      quantity or an amount in rupees is an integer of [Z]; the model covers
      the integral values on which JavaScript arithmetic is exact.
    - A JavaScript string is a [string]; [===] on strings is [String.eqb].
    - A React state cell is a field of an explicit state record.  A setter
      called with a function ([setCartItems(prev => ...)]) is that function
      applied to the cell; a handler defined inside a component reads the
      cells through the constants of the render that created it, so such a
      handler takes the rendered values as arguments of their own. *)

From Stdlib Require Import ZArith List String Ascii Bool Lia.
From Stdlib Require QArith.QArith_base.
From Stdlib Require DecimalString DecimalPos.
Import ListNotations.

Local Open Scope Z_scope.

(** ** Cart *)

Module Cart.

(** Modelled from the spec: the interfaces [Product] and [CartItem] of
    [./types], which the component file imports; the fields are those of
    the data model, [CartItem] being a product snapshot with a quantity. *)
Record Product := {
  id : Z;
  name : string;
  category : string;
  price : Z;
  originalPrice : option Z;
  rating : QArith_base.Q;
  imageUrl : string;
  imageUrls : list string;
  benefits : list string;
  description : string
}.

(** [{ ...product, quantity }]: the spread keeps every product field. *)
Record CartItem := {
  product : Product;
  quantity : Z
}.

Definition item_id (item : CartItem) : Z := id (product item).
Definition item_name (item : CartItem) : string := name (product item).
Definition item_price (item : CartItem) : Z := price (product item).

(** [{ ...item, quantity: q }] *)
Definition with_quantity (item : CartItem) (q : Z) : CartItem :=
  {| product := product item; quantity := q |}.

Definition addToCart (p : Product) (prevItems : list CartItem) : list CartItem :=
  match find (fun item => item_id item =? id p) prevItems with
  | Some _existingItem =>
      map (fun item =>
             if item_id item =? id p
             then with_quantity item (quantity item + 1)
             else item) prevItems
  | None => prevItems ++ [ {| product := p; quantity := 1 |} ]
  end.

Definition removeFromCart (productId : Z) (prevItems : list CartItem)
  : list CartItem :=
  filter (fun item => negb (item_id item =? productId)) prevItems.

Definition updateQuantity (productId : Z) (q : Z) (prevItems : list CartItem)
  : list CartItem :=
  if q <=? 0 then removeFromCart productId prevItems
  else map (fun item =>
              if item_id item =? productId then with_quantity item q else item)
           prevItems.

Definition clearCart (_ : list CartItem) : list CartItem := [].

(** [cartItems.reduce((count, item) => count + item.quantity, 0)] *)
Definition cartCount (cartItems : list CartItem) : Z :=
  fold_left (fun count item => count + quantity item) cartItems 0.

(** [cartItems.reduce((total, item) => total + item.price * item.quantity, 0)] *)
Definition cartTotal (cartItems : list CartItem) : Z :=
  fold_left (fun total item => total + item_price item * quantity item)
            cartItems 0.

(** The calls a user interface can make on the cart context. *)
Inductive CartOp :=
| AddToCart (p : Product)
| RemoveFromCart (productId : Z)
| UpdateQuantity (productId : Z) (q : Z)
| ClearCart.

Definition step (cartItems : list CartItem) (op : CartOp) : list CartItem :=
  match op with
  | AddToCart p => addToCart p cartItems
  | RemoveFromCart productId => removeFromCart productId cartItems
  | UpdateQuantity productId q => updateQuantity productId q cartItems
  | ClearCart => clearCart cartItems
  end.

(** The cart after a sequence of calls, the first call first. *)
Definition run (ops : list CartOp) (cartItems : list CartItem)
  : list CartItem :=
  fold_left step ops cartItems.



Definition has_id (productId : Z) (item : CartItem) : bool :=
  item_id item =? productId.


(** The quantity the cart shows for a product: that of its line item, and
    0 when the product has none. *)
Definition quantity_of (productId : Z) (cartItems : list CartItem) : Z :=
  match find (has_id productId) cartItems with
  | Some item => quantity item
  | None => 0
  end.

(** How many of the products [ps] carry the identifier [productId]. *)
Definition calls_for (productId : Z) (ps : list Product) : nat :=
  count_occ Z.eq_dec (map id ps) productId.

Definition sumZ (l : list Z) : Z := fold_right Z.add 0 l.

Definition line_total (item : CartItem) : Z :=
  item_price item * quantity item.

Definition positive_quantities (cartItems : list CartItem) : Prop :=
  Forall (fun item => 0 < quantity item) cartItems.

(** A product of the catalogue shape used by the examples. *)
Definition mkProduct (i : Z) (n : string) (pr : Z) : Product :=
  {| id := i; name := n; category := ""; price := pr;
     originalPrice := None; rating := QArith_base.Qmake 0 1;
     imageUrl := ""; imageUrls := []; benefits := []; description := "" |}.

End Cart.

(** ** Session and identity registry *)

Module Auth.

(** Modelled from the spec: the interface [User] of [./types].  The source
    builds [{ name, email, password }] for a stored identity and
    [{ name, email }] for the session, and takes [password?: string], so the
    password is optional. *)
Record User := {
  name : string;
  email : string;
  password : option string
}.

(** The two state cells of [AuthProvider] and the two keys of the persisted
    store.  A persisted value is kept as the value whose JSON text the
    source writes; an absent key is [None]. *)
Record Store := {
  currentUser : option User;
  users : list User;
  ls_users : option (list User);
  ls_currentUser : option User
}.

Definition initial : Store :=
  {| currentUser := None; users := []; ls_users := None;
     ls_currentUser := None |}.

(** State passing for the handlers. *)
Definition M (A : Type) : Type := Store -> A * Store.

Definition ret {A} (a : A) : M A := fun s => (a, s).

Definition bind {A B} (m : M A) (k : A -> M B) : M B :=
  fun s => let (a, s') := m s in k a s'.

Notation "m ;; k" := (bind m (fun _ => k))
  (at level 61, right associativity).

Definition setCurrentUser (u : option User) : M unit :=
  fun s => (tt, {| currentUser := u; users := users s;
                   ls_users := ls_users s;
                   ls_currentUser := ls_currentUser s |}).

Definition setUsers (us : list User) : M unit :=
  fun s => (tt, {| currentUser := currentUser s; users := us;
                   ls_users := ls_users s;
                   ls_currentUser := ls_currentUser s |}).

(** [localStorage.setItem('currentUser', JSON.stringify(u))] *)
Definition setItem_currentUser (u : User) : M unit :=
  fun s => (tt, {| currentUser := currentUser s; users := users s;
                   ls_users := ls_users s; ls_currentUser := Some u |}).

(** [localStorage.removeItem('currentUser')] *)
Definition removeItem_currentUser : M unit :=
  fun s => (tt, {| currentUser := currentUser s; users := users s;
                   ls_users := ls_users s; ls_currentUser := None |}).

(** [localStorage.setItem('users', JSON.stringify(us))] *)
Definition setItem_users (us : list User) : M unit :=
  fun s => (tt, {| currentUser := currentUser s; users := users s;
                   ls_users := Some us;
                   ls_currentUser := ls_currentUser s |}).

(** [===] on a possibly undefined string. *)
Definition opt_eqb (a b : option string) : bool :=
  match a, b with
  | Some x, Some y => (x =? y)%string
  | None, None => true
  | _, _ => false
  end.

Definition same_email (e : string) (u : User) : bool :=
  (email u =? e)%string.

Definition matches (e : string) (pw : option string) (u : User) : bool :=
  (email u =? e)%string && opt_eqb (password u) pw.

(** [{ name: user.name, email: user.email }] *)
Definition redact (user : User) : User :=
  {| name := name user; email := email user; password := None |}.

(** The handlers of one render of [AuthProvider].  [rendered_users] is the
    constant [users] of that render: [login] and [register] are closures
    over it, and [setUsers] does not change it. *)
Section Render.

Variable rendered_users : list User.

Definition login (e : string) (pw : option string) : M bool :=
  match find (matches e pw) rendered_users with
  | Some user =>
      let userToStore := redact user in
      setCurrentUser (Some userToStore) ;;
      setItem_currentUser userToStore ;;
      ret true
  | None => ret false
  end.

Definition logout : M unit :=
  setCurrentUser None ;;
  removeItem_currentUser.

Definition register (n e : string) (pw : option string) : M bool :=
  if existsb (same_email e) rendered_users then ret false
  else
    let newUser := {| name := n; email := e; password := pw |} in
    let updatedUsers := rendered_users ++ [newUser] in
    setUsers updatedUsers ;;
    setItem_users updatedUsers ;;
    login e pw ;;
    ret true.

End Render.

(** The effect on mount: load the registry and the session from the store. *)
Definition startup : M unit :=
  fun s =>
    let s1 := match ls_users s with
              | Some us => snd (setUsers us s)
              | None => s
              end in
    match ls_currentUser s1 with
    | Some u => setCurrentUser (Some u) s1
    | None => (tt, s1)
    end.

(** A call made by the user interface.  React renders again after each
    event, so the handler that runs is the one of the current state. *)
Inductive Call :=
| Login (e : string) (pw : option string)
| Logout
| Register (n e : string) (pw : option string).

(** The value a call returns ([logout] returns nothing, shown as [true])
    and the state it leaves. *)
Definition call (c : Call) (s : Store) : bool * Store :=
  match c with
  | Login e pw => login (users s) e pw s
  | Logout => (true, snd (logout s))
  | Register n e pw => register (users s) n e pw s
  end.

Definition after (c : Call) (s : Store) : Store := snd (call c s).

(** The states the registry can reach from the empty one. *)
Inductive reachable : Store -> Prop :=
| reach_initial : reachable initial
| reach_call : forall s c, reachable s -> reachable (after c s).

(** How many stored identities carry the email [e]. *)
Definition count_email (e : string) (us : list User) : nat :=
  List.length (filter (same_email e) us).

End Auth.

(** ** Route dispatch *)

Module Router.

(** The page component [renderPage] returns. *)
Inductive Page :=
| HomePage
| ShopPage
| AboutPage
| ContactPage
| CheckoutPage
| AuthPage
| RefundPolicyPage
| PrivacyPolicyPage
| TermsAndConditionsPage
| ProductDetailPage (productId : Z).

Local Open Scope string_scope.

(** [\d] *)
Definition is_digit (c : ascii) : bool :=
  let n := N_of_ascii c in (48 <=? n)%N && (n <=? 57)%N.

Definition digit_value (c : ascii) : Z := Z.of_N (N_of_ascii c) - 48.

(** The rest of [s] after the literal prefix [p], when [s] starts with it. *)
Fixpoint strip_prefix (p s : string) : option string :=
  match p, s with
  | EmptyString, _ => Some s
  | String a p', String b s' =>
      if Ascii.eqb a b then strip_prefix p' s' else None
  | String _ _, EmptyString => None
  end.

Definition all_digits (s : string) : bool :=
  forallb is_digit (list_ascii_of_string s).

(** [route.match(/^#\/product\/(\d+)$/)]: the captured group. *)
Definition productMatch (route : string) : option string :=
  match strip_prefix "#/product/" route with
  | Some ds =>
      match ds with
      | EmptyString => None
      | _ => if all_digits ds then Some ds else None
      end
  | None => None
  end.

(** [parseInt(ds, 10)] on a string of decimal digits (exact below 2^53). *)
Definition parseInt (ds : string) : Z :=
  fold_left (fun acc c => 10 * acc + digit_value c)
            (list_ascii_of_string ds) 0%Z.

Definition renderPage (route : string) : Page :=
  match productMatch route with
  | Some ds => ProductDetailPage (parseInt ds)
  | None =>
      if route =? "#/shop" then ShopPage
      else if route =? "#/about" then AboutPage
      else if route =? "#/contact" then ContactPage
      else if route =? "#/checkout" then CheckoutPage
      else if route =? "#/auth" then AuthPage
      else if route =? "#/refund-policy" then RefundPolicyPage
      else if route =? "#/privacy-policy" then PrivacyPolicyPage
      else if route =? "#/terms" then TermsAndConditionsPage
      else HomePage
  end.

(** The route cell of [App] and the location fragment. *)
Record Location := {
  route : string;
  hash : string
}.

(** [window.location.hash || '#/'] *)
Definition hash_or_home (h : string) : string :=
  match h with
  | EmptyString => "#/"
  | _ => h
  end.

Definition initialLocation (h : string) : Location :=
  {| route := hash_or_home h; hash := h |}.

Definition handleSetRoute (newRoute : string) (_ : Location) : Location :=
  {| route := newRoute; hash := newRoute |}.

(** The static fragments of the location grammar, with their pages. *)
Definition static_routes : list (string * Page) :=
  [ ("#/", HomePage); ("#/shop", ShopPage); ("#/about", AboutPage);
    ("#/contact", ContactPage); ("#/checkout", CheckoutPage);
    ("#/auth", AuthPage); ("#/refund-policy", RefundPolicyPage);
    ("#/privacy-policy", PrivacyPolicyPage);
    ("#/terms", TermsAndConditionsPage) ].

(** A fragment of the form [#/product/<digits>]. *)
Definition product_fragment (r : string) : Prop :=
  exists ds, ds <> "" /\ all_digits ds = true /\ r = "#/product/" ++ ds.

End Router.

(** ** Checkout *)

Module Checkout.

Import Cart.

Local Open Scope string_scope.

Record BillingDetails := {
  firstName : string;
  lastName : string;
  email : string;
  phone : string;
  address : string;
  city : string;
  state : string;
  zip : string
}.

(** The cell [placedOrder] of [CheckoutPage]. *)
Record PlacedOrder := {
  details : BillingDetails;
  items : list CartItem;
  total : Z
}.

(** The cart cell of [CartProvider], the cells of [CheckoutPage] and the
    windows opened so far, the first one first. *)
Record PageState := {
  cartItems : list CartItem;
  placedOrder : option PlacedOrder;
  billingDetails : BillingDetails;
  opened : list string
}.

(** The line feed of [\n]. *)
Definition nl : string := String (ascii_of_nat 10) "".

(** An integral number inside a template literal. *)
Definition numberToString (z : Z) : string :=
  DecimalString.NilZero.string_of_int (Z.to_int z).

(** [s.startsWith(p)] *)
Fixpoint starts_with (p s : string) : bool :=
  match p, s with
  | EmptyString, _ => true
  | String a p', String b s' => Ascii.eqb a b && starts_with p' s'
  | String _ _, EmptyString => false
  end.

(** [s.includes(needle)] *)
Fixpoint includes (needle s : string) : bool :=
  if starts_with needle s then true
  else match s with
       | EmptyString => false
       | String _ s' => includes needle s'
       end.

(** [s.replace(/\*/g, '')] *)
Fixpoint remove_stars (s : string) : string :=
  match s with
  | EmptyString => EmptyString
  | String c s' =>
      if Ascii.eqb c "*" then remove_stars s' else String c (remove_stars s')
  end.

Definition hex_digit (n : N) : ascii :=
  if (n <? 10)%N then ascii_of_N (48 + n) else ascii_of_N (55 + n).

(** The characters [encodeURIComponent] leaves as they are. *)
Definition unreserved (c : ascii) : bool :=
  let n := N_of_ascii c in
  ((48 <=? n) && (n <=? 57) || (65 <=? n) && (n <=? 90)
   || (97 <=? n) && (n <=? 122))%N
  || existsb (Ascii.eqb c) (list_ascii_of_string "-_.!~*'()").

(** [encodeURIComponent] on the UTF-8 bytes of a well-formed string. *)
Fixpoint encodeURIComponent (s : string) : string :=
  match s with
  | EmptyString => EmptyString
  | String c s' =>
      if unreserved c then String c (encodeURIComponent s')
      else let n := N_of_ascii c in
           String "%" (String (hex_digit (n / 16))
                      (String (hex_digit (n mod 16))
                              (encodeURIComponent s')))
  end.

(** The body of the [forEach] of the order summary: one [message +=]. *)
Definition add_item_line (message : string) (item : CartItem) : string :=
  message ++ "- " ++ item_name item ++ " (x" ++ numberToString (quantity item)
          ++ ") - Rs " ++ numberToString (item_price item * quantity item)
          ++ nl.




(** The handlers of one render of [CheckoutPage]: [rendered_details] and
    [rendered_items] are its constants [billingDetails] and [cartItems], and
    [cartTotal] is the memoised total of the same cart. *)
Section Render.

Variable rendered_details : BillingDetails.
Variable rendered_items : list CartItem.

Let cartTotal : Z := Cart.cartTotal rendered_items.

Definition constructStoreOrderMessage : string :=
  let message := "*New Order from Skardu Organic*" ++ nl ++ nl in
  let message := message ++ "*Customer Details:*" ++ nl in
  let message := message ++ "Name: " ++ firstName rendered_details ++ " "
                         ++ lastName rendered_details ++ nl in
  let message := message ++ "Email: " ++ email rendered_details ++ nl in
  let message := message ++ "Phone: " ++ phone rendered_details ++ nl in
  let message := message ++ "Address: " ++ address rendered_details ++ ", "
                         ++ city rendered_details ++ ", "
                         ++ state rendered_details ++ " "
                         ++ zip rendered_details ++ nl ++ nl in
  let message := message ++ "*Order Summary:*" ++ nl in
  let message := fold_left add_item_line rendered_items message in
  let message := message ++ nl ++ "*Total: Rs " ++ numberToString cartTotal
                         ++ "*" in
  message.

Definition setPlacedOrder (o : option PlacedOrder) (s : PageState)
  : PageState :=
  {| cartItems := cartItems s; placedOrder := o;
     billingDetails := billingDetails s; opened := opened s |}.

(** [clearCart()] of the cart context. *)
Definition clearCart (s : PageState) : PageState :=
  {| cartItems := Cart.clearCart (cartItems s);
     placedOrder := placedOrder s;
     billingDetails := billingDetails s; opened := opened s |}.

Definition window_open (url : string) (s : PageState) : PageState :=
  {| cartItems := cartItems s; placedOrder := placedOrder s;
     billingDetails := billingDetails s; opened := opened s ++ [url] |}.

Definition processOrder (s : PageState) : PageState :=
  let s := setPlacedOrder
             (Some {| details := rendered_details;
                      items := rendered_items;
                      total := cartTotal |}) s in
  clearCart s.


Definition handleEmailOrder (s : PageState) : PageState :=
  let subject := encodeURIComponent "New Order from Skardu Organic" in
  let body := encodeURIComponent (remove_stars constructStoreOrderMessage) in
  let mailtoUrl := "mailto:support@skarduorganic.com?subject=" ++ subject
                   ++ "&body=" ++ body in
  let s := window_open mailtoUrl s in
  processOrder s.

End Render.





End Checkout.

(** ** Cart side bar and header badge *)

Module CartSidebar.

Import Cart.

(** The minus button of a cart line:
    [updateQuantity(item.id, item.quantity - 1)]. *)
Definition minus (item : CartItem) (cartItems : list CartItem)
  : list CartItem :=
  updateQuantity (item_id item) (quantity item - 1) cartItems.

(** The plus button: [updateQuantity(item.id, item.quantity + 1)]. *)
Definition plus (item : CartItem) (cartItems : list CartItem)
  : list CartItem :=
  updateQuantity (item_id item) (quantity item + 1) cartItems.

(** The link [Remove]: [removeFromCart(item.id)]. *)
Definition remove (item : CartItem) (cartItems : list CartItem)
  : list CartItem :=
  removeFromCart (item_id item) cartItems.

(** [cartCount > 0 && <span>...</span>] of the header. *)
Definition badge_shown (cartItems : list CartItem) : bool :=
  0 <? cartCount cartItems.

(** [cartItems.length > 0] of the side bar. *)
Definition lists_items (cartItems : list CartItem) : bool :=
  (0 <? List.length cartItems)%nat.

(** The line item the cart holds for a product. *)
Definition line_of (productId : Z) (cartItems : list CartItem)
  : option CartItem :=
  find (has_id productId) cartItems.

(** One line item per product. *)
Definition one_line_per_product (cartItems : list CartItem) : Prop :=
  NoDup (map item_id cartItems).

End CartSidebar.

(** ** Session across reloads *)

Module Session.

Import Auth.

(** A reload of the page: the state cells start again from their initial
    values, the persisted store stays, and the mount effect runs. *)
Definition reload (s : Store) : Store :=
  snd (startup {| currentUser := None; users := [];
                  ls_users := ls_users s;
                  ls_currentUser := ls_currentUser s |}).

(** The persisted store mirrors the state cells: the session key holds the
    session, and the registry key holds the registry once it was written. *)
Definition mirrored (s : Store) : Prop :=
  ls_currentUser s = currentUser s
  /\ (ls_users s = Some (users s) \/ (ls_users s = None /\ users s = [])).

(** The session is absent or the redacted form of a stored identity. *)
Definition session_of_registry (s : Store) : Prop :=
  match currentUser s with
  | None => True
  | Some u => exists stored, In stored (users s) /\ u = redact stored
  end.

(** The state after a sequence of calls, the first call first. *)
Definition after_all (cs : list Call) (s : Store) : Store :=
  fold_left (fun st c => after c st) cs s.

End Session.

(** ** Sign-in form *)

Module AuthPage.

Local Open Scope string_scope.

(** The cells of [AuthPage]. *)
Record Form := {
  isLogin : bool;
  name : string;
  email : string;
  password : string;
  error : string
}.

(** The form, the registry with its session, and the location. *)
Record World := {
  form : Form;
  store : Auth.Store;
  location : Router.Location
}.

Definition setError (msg : string) (f : Form) : Form :=
  {| isLogin := isLogin f; name := name f; email := email f;
     password := password f; error := msg |}.

(** [handleSubmit]: the handlers [login] and [register] are those of the
    current render of the provider. *)
Definition handleSubmit (w : World) : World :=
  let f := setError "" (form w) in
  let rendered := Auth.users (store w) in
  let '(success, st, f) :=
    if isLogin (form w) then
      let (success, st) :=
        Auth.login rendered (email (form w)) (Some (password (form w)))
                   (store w) in
      (success, st,
       if negb success then setError "Invalid email or password." f else f)
    else
      let (success, st) :=
        Auth.register rendered (name (form w)) (email (form w))
                      (Some (password (form w))) (store w) in
      (success, st,
       if negb success
       then setError "An account with this email already exists." f
       else f) in
  {| form := f; store := st;
     location := if success then Router.handleSetRoute "#/" (location w)
                 else location w |}.

End AuthPage.

(** ** Hero slider *)

Module HeroSlider.

(** [slides] is [HERO_SLIDES.length], the number of slides of the catalogue
    of [./constants]. *)
Section Slides.

Variable slides : Z.

(** The update of the five-second timer, applied to the current index. *)
Definition advance (prevIndex : Z) : Z :=
  if prevIndex =? slides - 1 then 0 else prevIndex + 1.

Definition goToPrevious (currentIndex : Z) : Z :=
  let isFirstSlide := currentIndex =? 0 in
  if isFirstSlide then slides - 1 else currentIndex - 1.

Definition goToNext (currentIndex : Z) : Z :=
  let isLastSlide := currentIndex =? slides - 1 in
  if isLastSlide then 0 else currentIndex + 1.

Definition goToSlide (slideIndex : Z) (_ : Z) : Z := slideIndex.

(** [k] updates of the timer in a row. *)
Fixpoint advance_times (k : nat) (index : Z) : Z :=
  match k with
  | O => index
  | S k' => advance_times k' (advance index)
  end.

(** The index names one of the slides. *)
Definition shows_a_slide (index : Z) : Prop := 0 <= index < slides.

End Slides.

End HeroSlider.

(** ** Countdown timer *)

Module CountdownTimer.

Local Open Scope string_scope.

(** [calculateTimeLeft] for [difference], the milliseconds from now to the
    target date: an object with the keys in insertion order, or the empty
    object.  The quotients are integral parts of quotients of a positive
    integer, so [Math.floor(x % m)] is the integral part of [x] modulo
    [m]. *)
Definition calculateTimeLeft (difference : Z) : list (string * Z) :=
  if (0 <? difference)%Z then
    [ ("days", difference / (1000 * 60 * 60 * 24));
      ("hours", (difference / (1000 * 60 * 60)) mod 24);
      ("minutes", (difference / 1000 / 60) mod 60);
      ("seconds", (difference / 1000) mod 60) ]
  else [].

(** The value under a key of the object. *)
Fixpoint get (key : string) (o : list (string * Z)) : option Z :=
  match o with
  | [] => None
  | (k, v) :: rest => if k =? key then Some v else get key rest
  end.

(** [s.padStart(2, '0')] *)
Definition padStart2 (s : string) : string :=
  match s with
  | EmptyString => "00"
  | String c EmptyString => String "0" (String c EmptyString)
  | _ => s
  end.

(** What the timer shows: a box per key with the padded value, or the
    text [Time's up!] when there is no key. *)
Inductive Shown :=
| Boxes (boxes : list (string * string))
| TimesUp.

Definition timerComponents (timeLeft : list (string * Z))
  : list (string * string) :=
  map (fun kv => (fst kv, padStart2 (Checkout.numberToString (snd kv))))
      timeLeft.

Definition shown (difference : Z) : Shown :=
  let components := timerComponents (calculateTimeLeft difference) in
  match components with
  | [] => TimesUp
  | _ => Boxes components
  end.

End CountdownTimer.

(** ** Catalogue: search, product links and the detail page *)

Module Catalogue.

Import Cart.

Local Open Scope string_scope.

(** [`#/product/${p.id}`], the fragment the product cards navigate to. *)
Definition product_fragment_of (p : Product) : string :=
  "#/product/" ++ Checkout.numberToString (id p).

(** [onProductSelect] as [renderPage] passes it to the product lists. *)
Definition onProductSelect (p : Product) (l : Router.Location)
  : Router.Location :=
  Router.handleSetRoute (product_fragment_of p) l.

(** [PRODUCTS] is the catalogue of [./constants]; [toLowerCase] is the
    method of the strings of the runtime. *)
Section Products.

Variable PRODUCTS : list Product.
Variable toLowerCase : string -> string.

(** The products [renderPage] hands to the shop page. *)
Definition filteredProducts (searchQuery : string) : list Product :=
  filter (fun p =>
            Checkout.includes (toLowerCase searchQuery) (toLowerCase (name p))
            || Checkout.includes (toLowerCase searchQuery)
                                 (toLowerCase (category p)))
         PRODUCTS.

(** [PRODUCTS.find(p => p.id === productId)] of the detail page; [None] is
    the view [Product not found]. *)
Definition detail_product (productId : Z) : option Product :=
  find (fun p => (id p =? productId)%Z) PRODUCTS.

(** The product the detail page shows for a location. *)
Definition shown_product (l : Router.Location) : option Product :=
  match Router.renderPage (Router.route l) with
  | Router.ProductDetailPage productId => detail_product productId
  | _ => None
  end.

End Products.

End Catalogue.

(** ** Order confirmation *)

Module OrderConfirmation.

Import Cart Checkout.

Local Open Scope string_scope.

(** Whether every character of a string passes a test. *)
Definition all_chars (test : ascii -> bool) (s : string) : bool :=
  forallb test (list_ascii_of_string s).

(** The characters the class [[^0-9+]] leaves out. *)
Definition phone_char (c : ascii) : bool :=
  Router.is_digit c || Ascii.eqb c "+".

(** [s.replace(/[^0-9+]/g, '')] *)
Fixpoint clean_phone (s : string) : string :=
  match s with
  | EmptyString => EmptyString
  | String c s' =>
      if phone_char c then String c (clean_phone s') else clean_phone s'
  end.

(** The characters a percent-encoded text is made of. *)
Definition encoded_char (c : ascii) : bool :=
  unreserved c || Ascii.eqb c "%"
  || existsb (Ascii.eqb c) (list_ascii_of_string "0123456789ABCDEF").






(** The handlers of the confirmation view, for the order it shows. *)
Section Placed.

Variable placed : PlacedOrder.

Definition constructUserConfirmationMessage : string :=
  let message := "Hello " ++ firstName (details placed) ++ "," ++ nl ++ nl in
  let message :=
    message ++ "Thank you for your purchase from Skardu Organic! We have received your order and will contact you shortly to confirm the details."
            ++ nl ++ nl in
  let message := message ++ "*Order Summary:*" ++ nl in
  let message := fold_left add_item_line (items placed) message in
  let message := message ++ nl ++ "*Total: Rs " ++ numberToString (total placed)
                         ++ "*" ++ nl ++ nl in
  let message := message ++ "*Shipping to:*" ++ nl in
  let message := message ++ address (details placed) ++ ", "
                         ++ city (details placed) ++ ", "
                         ++ state (details placed) ++ " "
                         ++ zip (details placed) ++ nl ++ nl in
  let message := message ++ "We appreciate your business!" in
  message.

Definition handleSendConfirmationToWhatsApp (s : PageState) : PageState :=
  let message := encodeURIComponent constructUserConfirmationMessage in
  let phone := clean_phone (phone (details placed)) in
  let whatsappUrl := "https://wa.me/" ++ phone ++ "?text=" ++ message in
  window_open whatsappUrl s.

Definition handleSendConfirmationToEmail (s : PageState) : PageState :=
  let subject := encodeURIComponent "Your Skardu Organic Order Confirmation" in
  let body :=
    encodeURIComponent (remove_stars constructUserConfirmationMessage) in
  let mailtoUrl := "mailto:" ++ email (details placed) ++ "?subject="
                     ++ subject ++ "&body=" ++ body in
  window_open mailtoUrl s.

End Placed.

End OrderConfirmation.

(** ** Contact page *)

Module ContactPage.

Import Checkout.

Local Open Scope string_scope.

Record FormData := {
  name : string;
  email : string;
  phone : string;
  comments : string
}.

(** [a || b] on strings: the empty string is the only falsy one. *)
Definition or_else (a b : string) : string :=
  match a with
  | EmptyString => b
  | _ => a
  end.

Definition constructInquiryMessage (formData : FormData) : string :=
  let message := "*New Inquiry from Skardu Organic Website*" ++ nl ++ nl in
  let message := message ++ "*Contact Details:*" ++ nl in
  let message := message ++ "Name: " ++ name formData ++ nl in
  let message := message ++ "Email: " ++ email formData ++ nl in
  let message := message ++ "Phone: " ++ phone formData ++ nl ++ nl in
  let message := message ++ "*Message:*" ++ nl
                         ++ or_else (comments formData) "No comments provided." in
  message.

Definition whatsappUrl (formData : FormData) : string :=
  "https://wa.me/923488875456?text="
  ++ encodeURIComponent (constructInquiryMessage formData).

Definition mailtoUrl (formData : FormData) : string :=
  let emailBody := remove_stars (constructInquiryMessage formData) in
  "mailto:support@skarduorganic.com?subject="
  ++ encodeURIComponent "New Website Inquiry" ++ "&body="
  ++ encodeURIComponent emailBody.

End ContactPage.

(** ** Clock *)

Module DateTime.

Local Open Scope string_scope.

(** [s.slice(0, n)] *)
Fixpoint slice0 (n : nat) (s : string) : string :=
  match n, s with
  | S n', String c s' => String c (slice0 n' s')
  | _, _ => EmptyString
  end.

(** [s.replace('T', ' ')]: the first occurrence only. *)
Fixpoint replace_first_T (s : string) : string :=
  match s with
  | EmptyString => EmptyString
  | String c s' =>
      if Ascii.eqb c "T" then String " " s' else String c (replace_first_T s')
  end.

(** The text of the clock for [iso], the result of [toISOString()]. *)
Definition currentTime (iso : string) : string :=
  replace_first_T (slice0 19 iso).

Definition has_no_T (s : string) : Prop :=
  forall c, In c (list_ascii_of_string s) -> c <> "T"%char.

End DateTime.

(** * Properties *)

(** ** Cart *)

Module CartFacts.

Import Cart.

Lemma fold_add_shift {A} (g : A -> Z) (l : list A) (a : Z) :
  fold_left (fun acc x => acc + g x) l a
  = a + fold_left (fun acc x => acc + g x) l 0.
Proof.
  revert a; induction l as [|x l IH]; intros a; simpl.
  - lia.
  - rewrite IH, (IH (g x)). lia.
Qed.

Lemma fold_add_sum {A} (g : A -> Z) (l : list A) :
  fold_left (fun acc x => acc + g x) l 0 = sumZ (map g l).
Proof.
  induction l as [|x l IH]; simpl; [reflexivity|].
  rewrite fold_add_shift, IH. reflexivity.
Qed.

Lemma cartCount_sum c : cartCount c = sumZ (map quantity c).
Proof. apply fold_add_sum. Qed.

Lemma cartTotal_sum c : cartTotal c = sumZ (map line_total c).
Proof. apply (fold_add_sum line_total). Qed.

Lemma sumZ_app l1 l2 : sumZ (l1 ++ l2) = sumZ l1 + sumZ l2.
Proof. induction l1; simpl; lia. Qed.

(** A [map] that rewrites only the line items of a product the cart does
    not hold returns the cart. *)
Lemma map_absent (productId : Z) (h : CartItem -> CartItem) c :
  find (has_id productId) c = None ->
  map (fun item => if item_id item =? productId then h item else item) c = c.
Proof.
  induction c as [|x c IH]; simpl; [reflexivity|].
  unfold has_id at 1. destruct (item_id x =? productId) eqn:E.
  - discriminate.
  - intros H. rewrite IH by exact H. reflexivity.
Qed.

Lemma find_has_id_none productId c :
  find (has_id productId) c = None <->
  (forall item, In item c -> item_id item <> productId).
Proof.
  split.
  - intros H item Hin Heq.
    apply (find_none _ _ H) in Hin. unfold has_id in Hin.
    apply Z.eqb_neq in Hin. contradiction.
  - intros H. induction c as [|x c IH]; simpl; [reflexivity|].
    unfold has_id at 1. destruct (item_id x =? productId) eqn:E.
    + apply Z.eqb_eq in E. exfalso. apply (H x); [left; reflexivity|exact E].
    + apply IH. intros item Hin. apply H. right; exact Hin.
Qed.

Lemma find_map_ids productId (h : CartItem -> CartItem) c :
  (forall item, item_id (h item) = item_id item) ->
  find (has_id productId) (map h c)
  = option_map h (find (has_id productId) c).
Proof.
  intros Hh. induction c as [|x c IH]; simpl; [reflexivity|].
  unfold has_id at 1 3. rewrite Hh.
  destruct (item_id x =? productId); [reflexivity|exact IH].
Qed.

Lemma find_app_has_id productId c1 c2 :
  find (has_id productId) (c1 ++ c2)
  = match find (has_id productId) c1 with
    | Some item => Some item
    | None => find (has_id productId) c2
    end.
Proof.
  induction c1 as [|x c1 IH]; simpl; [reflexivity|].
  destruct (has_id productId x); [reflexivity|exact IH].
Qed.

(** *** Adding products *)

Lemma quantity_of_addToCart p c i :
  quantity_of i (addToCart p c)
  = quantity_of i c + (if i =? id p then 1 else 0).
Proof.
  unfold addToCart, quantity_of.
  change (fun item => item_id item =? id p) with (has_id (id p)).
  destruct (find (has_id (id p)) c) as [existing|] eqn:F.
  - rewrite (find_map_ids i
               (fun item => if item_id item =? id p
                            then with_quantity item (quantity item + 1)
                            else item)).
    2:{ intros item. destruct (item_id item =? id p); reflexivity. }
    destruct (find (has_id i) c) as [item|] eqn:G; simpl.
    + apply find_some in G. destruct G as [_ G]. unfold has_id in G.
      apply Z.eqb_eq in G. rewrite G.
      destruct (i =? id p); simpl; lia.
    + destruct (i =? id p) eqn:E; [|lia].
      apply Z.eqb_eq in E. subst i. congruence.
  - rewrite find_app_has_id.
    destruct (find (has_id i) c) as [item|] eqn:G.
    + destruct (i =? id p) eqn:E; [|lia].
      apply Z.eqb_eq in E. subst i. congruence.
    + simpl. unfold has_id, item_id; simpl. rewrite Z.eqb_sym.
      destruct (i =? id p); simpl; lia.
Qed.

Lemma map_item_id_addToCart_some p c existing :
  find (has_id (id p)) c = Some existing ->
  map item_id (addToCart p c) = map item_id c.
Proof.
  intros F. unfold addToCart.
  change (fun item => item_id item =? id p) with (has_id (id p)).
  rewrite F, map_map. apply map_ext.
  intros item. destruct (item_id item =? id p); reflexivity.
Qed.

Lemma NoDup_addToCart p c :
  NoDup (map item_id c) -> NoDup (map item_id (addToCart p c)).
Proof.
  intros ND.
  destruct (find (has_id (id p)) c) as [existing|] eqn:F.
  - rewrite (map_item_id_addToCart_some _ _ _ F). exact ND.
  - unfold addToCart.
    change (fun item => item_id item =? id p) with (has_id (id p)).
    rewrite F, map_app; simpl.
    apply NoDup_app; [exact ND | repeat constructor; intros [] | ].
    intros a Ha [Hb|[]]. unfold item_id in Hb at 1; simpl in Hb. subst a.
    apply in_map_iff in Ha. destruct Ha as [item [Hid Hin]].
    apply (proj1 (find_has_id_none (id p) c) F item Hin Hid).
Qed.

Lemma sum_after_increment i c existing :
  NoDup (map item_id c) ->
  find (has_id i) c = Some existing ->
  sumZ (map quantity
          (map (fun item => if item_id item =? i
                            then with_quantity item (quantity item + 1)
                            else item) c))
  = sumZ (map quantity c) + 1.
Proof.
  induction c as [|x c IH]; simpl; [discriminate|].
  intros ND F. inversion ND as [|? ? Hnotin ND']; subst.
  unfold has_id at 1 in F. destruct (item_id x =? i) eqn:E.
  - apply Z.eqb_eq in E. rewrite map_absent.
    + simpl. lia.
    + apply find_has_id_none. intros item Hin Hid. apply Hnotin.
      rewrite E, <- Hid. apply in_map. exact Hin.
  - rewrite (IH ND' F). lia.
Qed.

(** With one line item per product, an add raises the item count by one. *)
Lemma cartCount_addToCart p c :
  NoDup (map item_id c) -> cartCount (addToCart p c) = cartCount c + 1.
Proof.
  intros ND. rewrite !cartCount_sum. unfold addToCart.
  change (fun item => item_id item =? id p) with (has_id (id p)).
  destruct (find (has_id (id p)) c) as [existing|] eqn:F.
  - apply (sum_after_increment _ _ existing ND F).
  - rewrite map_app, sumZ_app. simpl. lia.
Qed.

Lemma run_snoc ops op c : run (ops ++ [op]) c = step (run ops c) op.
Proof. unfold run. rewrite fold_left_app. reflexivity. Qed.

Lemma find_unique i c item :
  NoDup (map item_id c) -> In item c -> item_id item = i ->
  find (has_id i) c = Some item.
Proof.
  induction c as [|x c IH]; simpl; [intros _ []|].
  intros ND Hin Hid. inversion ND as [|? ? Hnotin ND']; subst.
  unfold has_id at 1. destruct Hin as [->|Hin].
  - rewrite Z.eqb_refl. reflexivity.
  - destruct (item_id x =? item_id item) eqn:E.
    + apply Z.eqb_eq in E. exfalso. apply Hnotin. rewrite E.
      apply in_map. exact Hin.
    + apply IH; auto.
Qed.

(** The cart of a history of adds: one line item per product, holding the
    number of adds of that product. *)
Lemma adds_invariant ps :
  let cart := run (map AddToCart ps) [] in
  NoDup (map item_id cart)
  /\ cartCount cart = Z.of_nat (List.length ps)
  /\ forall i, quantity_of i cart = Z.of_nat (calls_for i ps).
Proof.
  induction ps as [|p ps IH] using rev_ind; simpl.
  - split; [constructor|]. split; [reflexivity|]. intros i. reflexivity.
  - destruct IH as (ND & Hc & Hq).
    rewrite map_app; simpl. rewrite run_snoc; simpl.
    split; [apply NoDup_addToCart; exact ND|]. split.
    + rewrite cartCount_addToCart by exact ND.
      rewrite Hc, length_app; simpl. lia.
    + intros i. rewrite quantity_of_addToCart, Hq.
      unfold calls_for. rewrite map_app, count_occ_app; simpl.
      destruct (Z.eq_dec (id p) i) as [e|ne].
      * rewrite e, Z.eqb_refl. lia.
      * destruct (i =? id p) eqn:E; [apply Z.eqb_eq in E; congruence|lia].
Qed.

(** C4: after any sequence of adds on the empty cart, the item count is the
    number of adds, the cart holds one line item per distinct product whose
    quantity is the number of adds of that product, and the subtotal is the
    sum of the line totals (price times quantity); the cart with two units
    at 500 and one unit at 1200 has subtotal 2200 and item count 3. *)
Theorem addToCart_count_and_subtotal :
  forall ps : list Product,
    let cart := run (map AddToCart ps) [] in
    cartCount cart = Z.of_nat (List.length ps)
    /\ NoDup (map item_id cart)
    /\ (forall item, In item cart ->
          quantity item = Z.of_nat (calls_for (item_id item) ps))
    /\ cartCount cart
       = sumZ (map (fun i => Z.of_nat (calls_for i ps)) (map item_id cart))
    /\ cartTotal cart = sumZ (map line_total cart)
    /\ (let example :=
          [ {| product := mkProduct 1 "A" 500; quantity := 2 |};
            {| product := mkProduct 2 "B" 1200; quantity := 1 |} ] in
        run (map AddToCart
               [mkProduct 1 "A" 500; mkProduct 2 "B" 1200; mkProduct 1 "A" 500])
            [] = example
        /\ cartTotal example = 2200 /\ cartCount example = 3).
Proof.
  intros ps cart. destruct (adds_invariant ps) as (ND & Hc & Hq).
  fold cart in ND, Hc, Hq.
  assert (Hitem : forall item, In item cart ->
            quantity item = Z.of_nat (calls_for (item_id item) ps)).
  { intros item Hin. rewrite <- Hq. unfold quantity_of.
    rewrite (find_unique (item_id item) cart item ND Hin eq_refl).
    reflexivity. }
  repeat split; try assumption.
  - rewrite cartCount_sum, map_map. f_equal.
    apply map_ext_in. exact Hitem.
  - apply cartTotal_sum.
Qed.

(** *** Removing a product and its history *)










Lemma find_removed productId c :
  find (has_id productId) (removeFromCart productId c) = None.
Proof.
  apply find_has_id_none. intros item Hin Hid.
  apply filter_In in Hin. destruct Hin as [_ Hk].
  apply Z.eqb_eq in Hid. rewrite Hid in Hk. discriminate.
Qed.

(** On a cart that lacks the product, a quantity update changes nothing. *)
Lemma updateQuantity_lacking productId q c :
  find (has_id productId) c = None -> updateQuantity productId q c = c.
Proof.
  intros F. unfold updateQuantity. destruct (q <=? 0).
  - unfold removeFromCart. induction c as [|x c IH]; simpl; [reflexivity|].
    simpl in F. unfold has_id at 1 in F.
    destruct (item_id x =? productId); [discriminate|]. simpl.
    rewrite IH by exact F. reflexivity.
  - apply (map_absent productId (fun item => with_quantity item q)). exact F.
Qed.



(** *** Quantities stay positive *)

Lemma Forall_kept {A} (P : A -> Prop) (f : A -> bool) l :
  Forall P l -> Forall P (filter f l).
Proof.
  induction 1 as [|x l Hx Hl IH]; simpl; [constructor|].
  destruct (f x); [constructor|]; assumption.
Qed.

Lemma positive_step c op :
  positive_quantities c -> positive_quantities (step c op).
Proof.
  unfold positive_quantities. intros P.
  destruct op as [p|i|i q|]; simpl.
  - unfold addToCart. destruct (find _ c).
    + apply Forall_map. eapply Forall_impl; [|exact P].
      intros item Hq. simpl in *.
      destruct (item_id item =? id p); simpl; lia.
    + apply Forall_app. split; [exact P|]. repeat constructor.
  - apply Forall_kept. exact P.
  - unfold updateQuantity. destruct (q <=? 0) eqn:E.
    + apply Forall_kept. exact P.
    + apply Z.leb_gt in E. apply Forall_map.
      eapply Forall_impl; [|exact P].
      intros item Hq. simpl in *.
      destruct (item_id item =? i); simpl; lia.
  - constructor.
Qed.

Lemma positive_run ops c :
  positive_quantities c -> positive_quantities (run ops c).
Proof.
  revert c. induction ops as [|op ops IH]; intros c P; simpl; [exact P|].
  apply IH, positive_step, P.
Qed.


(** *** The claims on the cart *)



(** C9: in every cart reached from the empty cart by adds, removals,
    quantity updates and clears, every line item has a quantity above zero;
    an update to zero or below leaves no line item of the product and so
    stores no such quantity. *)
Theorem quantities_strictly_positive :
  forall ops : list CartOp,
    positive_quantities (run ops [])
    /\ forall productId q, q <= 0 ->
         find (has_id productId)
              (updateQuantity productId q (run ops [])) = None
         /\ positive_quantities (updateQuantity productId q (run ops [])).
Proof.
  intros ops. split.
  - apply positive_run. constructor.
  - intros productId q Hq. split.
    + unfold updateQuantity. apply Z.leb_le in Hq. rewrite Hq.
      apply find_removed.
    + apply (positive_step (run ops []) (UpdateQuantity productId q)).
      apply positive_run. constructor.
Qed.

(** C10: when the cart holds no line item of the product, a quantity
    update to a positive value returns the cart as it was. *)
Theorem updateQuantity_absent_unchanged :
  forall (cartItems : list CartItem) (productId q : Z),
    (forall item, In item cartItems -> item_id item <> productId) ->
    0 < q ->
    updateQuantity productId q cartItems = cartItems.
Proof.
  intros c productId q Habsent _.
  apply updateQuantity_lacking, find_has_id_none, Habsent.
Qed.

(** C10 on a cart that holds products 1 and 2, updated for product 7. *)
Lemma updateQuantity_absent_unchanged_witness :
  let cart := [ {| product := mkProduct 1 "A" 500; quantity := 2 |};
                {| product := mkProduct 2 "B" 1200; quantity := 1 |} ] in
  updateQuantity 7 5 cart = cart.
Proof.
  intros cart.
  apply (updateQuantity_absent_unchanged cart 7 5).
  - intros item [<-|[<-|[]]]; discriminate.
  - reflexivity.
Defined.

End CartFacts.

(** ** Session and identity registry *)

Module AuthFacts.

Import Auth.

Local Open Scope string_scope.

Lemma opt_eqb_eq a b : opt_eqb a b = true <-> a = b.
Proof.
  destruct a as [x|], b as [y|]; simpl; split; intros H;
    try discriminate; try reflexivity.
  - apply String.eqb_eq in H. congruence.
  - inversion H. apply String.eqb_refl.
Qed.

Lemma matches_true e pw u :
  matches e pw u = true <-> email u = e /\ password u = pw.
Proof.
  unfold matches. rewrite andb_true_iff, String.eqb_eq, opt_eqb_eq.
  reflexivity.
Qed.

Lemma same_email_true e u : same_email e u = true <-> email u = e.
Proof. unfold same_email. apply String.eqb_eq. Qed.

(** A successful [login]: the first stored identity that matches. *)
Lemma login_found us e pw s user :
  find (matches e pw) us = Some user ->
  login us e pw s
  = (true, {| currentUser := Some (redact user); users := users s;
              ls_users := ls_users s;
              ls_currentUser := Some (redact user) |}).
Proof. intros F. unfold login. rewrite F. reflexivity. Qed.

Lemma login_not_found us e pw s :
  find (matches e pw) us = None -> login us e pw s = (false, s).
Proof. intros F. unfold login. rewrite F. reflexivity. Qed.

Lemma find_matches_none_of_fresh us e pw :
  existsb (same_email e) us = false -> find (matches e pw) us = None.
Proof.
  intros Hfresh. destruct (find (matches e pw) us) as [u|] eqn:F; auto.
  apply find_some in F. destruct F as [Hin Hm].
  apply matches_true in Hm. destruct Hm as [He _].
  assert (X : existsb (same_email e) us = true).
  { apply existsb_exists. exists u. split; [exact Hin|].
    apply same_email_true. exact He. }
  congruence.
Qed.

(** [register] with an email that no rendered identity carries: the
    identity is appended and persisted; the [login] it then calls searches
    the rendered registry, which lacks the new identity, and so leaves the
    session as it was. *)
Lemma register_fresh us n e pw s :
  existsb (same_email e) us = false ->
  let newUser := {| name := n; email := e; password := pw |} in
  register us n e pw s
  = (true, {| currentUser := currentUser s; users := (us ++ [newUser])%list;
              ls_users := Some (us ++ [newUser])%list;
              ls_currentUser := ls_currentUser s |}).
Proof.
  intros Hfresh newUser. unfold register. rewrite Hfresh.
  unfold bind; simpl.
  rewrite (login_not_found us e pw _ (find_matches_none_of_fresh us e pw Hfresh)).
  reflexivity.
Qed.

Lemma register_taken us n e pw s :
  existsb (same_email e) us = true -> register us n e pw s = (false, s).
Proof. intros H. unfold register. rewrite H. reflexivity. Qed.

(** C5: [login] returns true exactly when a stored identity has that email
    and that password; it then makes the redacted first such identity the
    session, in the state cell and in the persisted store, and leaves the
    registry alone; when it returns false the whole state is unchanged. *)
Theorem login_succeeds_iff_credentials_match :
  forall (registry : list User) (e : string) (pw : option string) (s : Store),
    let r := login registry e pw s in
    (fst r = true <->
       exists u, In u registry /\ email u = e /\ password u = pw)
    /\ (fst r = true ->
          exists u, find (matches e pw) registry = Some u
            /\ In u registry /\ email u = e /\ password u = pw
            /\ currentUser (snd r)
               = Some {| name := name u; email := e; password := None |}
            /\ ls_currentUser (snd r) = currentUser (snd r)
            /\ users (snd r) = users s /\ ls_users (snd r) = ls_users s)
    /\ (fst r = false -> snd r = s).
Proof.
  intros registry e pw s r. subst r.
  destruct (find (matches e pw) registry) as [user|] eqn:F.
  - rewrite (login_found _ _ _ _ _ F); simpl.
    pose proof (find_some _ _ F) as [Hin Hm].
    apply matches_true in Hm. destruct Hm as [He Hp].
    split; [|split].
    + split; [intros _; exists user; auto | reflexivity].
    + intros _. exists user. unfold redact. rewrite He. repeat split; auto.
    + discriminate.
  - rewrite (login_not_found _ _ _ _ F); simpl.
    split; [|split].
    + split; [discriminate|]. intros [u (Hin & He & Hp)].
      pose proof (find_none _ _ F u Hin) as Hm.
      assert (X : matches e pw u = true) by (apply matches_true; auto).
      congruence.
    + discriminate.
    + reflexivity.
Qed.

(** The stored email with another password: [login] returns false and the
    state stays as it was. *)
Example login_wrong_password :
  let s := after (Register "Ali" "ali@example.com" (Some "secret")) initial in
  call (Login "ali@example.com" (Some "Secret")) s = (false, s)
  /\ call (Login "ali@example.com" None) s = (false, s).
Proof. split; reflexivity. Qed.

(** *** The registry keeps emails apart *)

Lemma users_after c s :
  users (after c s) = users s
  \/ exists n e pw,
       c = Register n e pw
       /\ existsb (same_email e) (users s) = false
       /\ users (after c s)
          = (users s ++ [{| name := n; email := e; password := pw |}])%list.
Proof.
  unfold after. destruct c as [e pw| |n e pw]; simpl.
  - left. destruct (find (matches e pw) (users s)) as [u|] eqn:F.
    + rewrite (login_found _ _ _ _ _ F). reflexivity.
    + rewrite (login_not_found _ _ _ _ F). reflexivity.
  - left. reflexivity.
  - destruct (existsb (same_email e) (users s)) eqn:X.
    + left. rewrite (register_taken _ _ _ _ _ X). reflexivity.
    + right. exists n, e, pw. rewrite (register_fresh _ _ _ _ _ X).
      auto.
Qed.

Lemma fresh_not_in e us :
  existsb (same_email e) us = false -> ~ In e (map email us).
Proof.
  intros X Hin. apply in_map_iff in Hin. destruct Hin as [u [He Hin]].
  assert (Y : existsb (same_email e) us = true).
  { apply existsb_exists. exists u. split; [exact Hin|].
    apply same_email_true. exact He. }
  congruence.
Qed.

Lemma emails_distinct s : reachable s -> NoDup (map email (users s)).
Proof.
  induction 1 as [|s c R IH]; simpl; [constructor|].
  destruct (users_after c s) as [E|(n & e & pw & _ & X & E)]; rewrite E.
  - exact IH.
  - rewrite map_app; simpl. apply NoDup_app; [exact IH| |].
    + repeat constructor. intros [].
    + intros a Ha [<-|[]]. exact (fresh_not_in _ _ X Ha).
Qed.

Lemma count_email_absent e us :
  ~ In e (map email us) -> count_email e us = 0%nat.
Proof.
  unfold count_email. induction us as [|u us IH]; simpl; [reflexivity|].
  intros Hn. unfold same_email at 1.
  destruct (email u =? e)%string eqn:E.
  - apply String.eqb_eq in E. exfalso. apply Hn. left. exact E.
  - apply IH. intros Hin. apply Hn. right. exact Hin.
Qed.

Lemma count_email_unique us u :
  NoDup (map email us) -> In u us -> count_email (email u) us = 1%nat.
Proof.
  induction us as [|x us IH]; simpl; [intros _ []|].
  intros ND Hin. inversion ND as [|? ? Hnotin ND']; subst.
  unfold count_email in *; simpl. unfold same_email at 1.
  destruct Hin as [->|Hin].
  - rewrite String.eqb_refl; simpl. f_equal.
    apply (count_email_absent (email u) us Hnotin).
  - destruct (email x =? email u)%string eqn:E.
    + apply String.eqb_eq in E. exfalso. apply Hnotin. rewrite E.
      apply in_map. exact Hin.
    + apply IH; assumption.
Qed.

(** C6: in every state reached from the empty registry by register, login
    and logout, the stored identities have pairwise distinct emails; a
    register with an email that is already stored returns false, changes
    nothing, and the registry holds exactly one identity with that email. *)
Theorem registry_emails_unique :
  forall s : Store,
    reachable s ->
    NoDup (map email (users s))
    /\ forall n e pw,
         (exists u, In u (users s) /\ email u = e) ->
         call (Register n e pw) s = (false, s)
         /\ count_email e (users s) = 1%nat.
Proof.
  intros s R. pose proof (emails_distinct s R) as ND.
  split; [exact ND|].
  intros n e pw [u [Hin He]]. split.
  - simpl. apply register_taken. apply existsb_exists.
    exists u. split; [exact Hin|]. apply same_email_true. exact He.
  - subst e. apply count_email_unique; assumption.
Qed.

(** C6 at the state reached by registering one identity, for a second
    registration with the same email. *)
Lemma registry_emails_unique_witness :
  let ali := {| name := "Ali"; email := "ali@example.com";
                password := Some "secret" |} in
  let s := after (Register "Ali" "ali@example.com" (Some "secret")) initial in
  users s = [ali]
  /\ NoDup (map email (users s))
  /\ call (Register "Omar" "ali@example.com" (Some "other")) s = (false, s)
  /\ count_email "ali@example.com" (users s) = 1%nat.
Proof.
  intros ali s.
  assert (R : reachable s) by (apply reach_call, reach_initial).
  destruct (registry_emails_unique s R) as [ND H].
  destruct (H "Omar" "ali@example.com" (Some "other"))
    as [Hc Hn].
  - exists ali. split; [left; reflexivity|reflexivity].
  - repeat split; assumption.
Defined.

(** C1, as the code behaves: on the empty registry, [register] returns
    true and appends and persists the identity, but the session stays
    absent, because the [login] it calls reads the registry of the render,
    which does not hold the new identity yet; the [login] of the next
    render finds it and opens the session. *)
Theorem register_leaves_session_absent :
  let ali := {| name := "Ali"; email := "ali@example.com";
                password := Some "secret" |} in
  let r := call (Register "Ali" "ali@example.com" (Some "secret")) initial in
  fst r = true
  /\ users (snd r) = [ali]
  /\ ls_users (snd r) = Some [ali]
  /\ currentUser (snd r) = None
  /\ ls_currentUser (snd r) = None
  /\ call (Login "ali@example.com" (Some "secret")) (snd r)
     = (true, {| currentUser := Some (redact ali); users := [ali];
                 ls_users := Some [ali];
                 ls_currentUser := Some (redact ali) |}).
Proof. repeat split. Qed.

End AuthFacts.

(** ** Route dispatch *)

Module RouterFacts.

Import Router.

Local Open Scope string_scope.

Lemma strip_prefix_app p s : strip_prefix p (p ++ s) = Some s.
Proof.
  induction p as [|a p IH]; simpl; [reflexivity|].
  rewrite Ascii.eqb_refl. exact IH.
Qed.

Lemma strip_prefix_some p s t : strip_prefix p s = Some t -> s = p ++ t.
Proof.
  revert s. induction p as [|a p IH]; intros s; simpl.
  - intros H. inversion H. reflexivity.
  - destruct s as [|b s]; [discriminate|].
    destruct (Ascii.eqb a b) eqn:E; [|discriminate].
    apply Ascii.eqb_eq in E. subst b. intros H. f_equal. apply IH, H.
Qed.

Lemma productMatch_some r ds :
  productMatch r = Some ds ->
  ds <> "" /\ all_digits ds = true /\ r = "#/product/" ++ ds.
Proof.
  unfold productMatch.
  destruct (strip_prefix "#/product/" r) as [t|] eqn:S; [|discriminate].
  apply strip_prefix_some in S.
  destruct t as [|c t]; [discriminate|].
  destruct (all_digits (String c t)) eqn:D; [|discriminate].
  intros H. inversion H. subst ds. repeat split; [discriminate|exact D|exact S].
Qed.

Lemma productMatch_digits ds :
  ds <> "" -> all_digits ds = true ->
  productMatch ("#/product/" ++ ds) = Some ds.
Proof.
  intros Hne D. unfold productMatch. rewrite strip_prefix_app.
  destruct ds as [|c t]; [contradiction|]. rewrite D. reflexivity.
Qed.

(** C7: the fragment [#/product/42] is dispatched to the product page with
    id 42, as is every fragment [#/product/<digits>] to the page of the
    number it spells; each static fragment is dispatched to its page; and
    every other string, [#/bogus] among them, to the home page. *)
Theorem renderPage_dispatch :
  renderPage (route (handleSetRoute "#/product/42" (initialLocation "")))
  = ProductDetailPage 42
  /\ (forall ds, ds <> "" -> all_digits ds = true ->
        renderPage ("#/product/" ++ ds) = ProductDetailPage (parseInt ds))
  /\ (forall r page, In (r, page) static_routes -> renderPage r = page)
  /\ renderPage (route (handleSetRoute "#/bogus" (initialLocation "")))
     = HomePage
  /\ (forall r, ~ product_fragment r ->
        (forall page, ~ In (r, page) static_routes) ->
        renderPage r = HomePage).
Proof.
  split; [reflexivity|]. split; [|split; [|split; [reflexivity|]]].
  - intros ds Hne D. unfold renderPage.
    rewrite (productMatch_digits ds Hne D). reflexivity.
  - intros r page Hin. simpl in Hin.
    repeat (destruct Hin as [Hin|Hin];
            [inversion Hin; subst; reflexivity|]).
    destruct Hin.
  - intros r Hnp Hns. unfold renderPage.
    destruct (productMatch r) as [ds|] eqn:P.
    + exfalso. apply Hnp. exists ds. apply productMatch_some. exact P.
    + repeat match goal with
             | |- context [String.eqb r ?lit] =>
                 destruct (String.eqb_spec r lit) as [E|_];
                 [exfalso; subst r;
                  eapply Hns; simpl; eauto 12 | ]
             end.
      reflexivity.
Qed.

End RouterFacts.

(** ** Checkout *)

Module CheckoutFacts.

Import Cart Checkout.

Local Open Scope string_scope.

Lemma append_assoc (a b c : string) : (a ++ b) ++ c = a ++ (b ++ c).
Proof. induction a as [|x a IH]; simpl; [reflexivity|]. rewrite IH. reflexivity. Qed.

Lemma append_nil_r (a : string) : a ++ "" = a.
Proof. induction a as [|x a IH]; simpl; [reflexivity|]. rewrite IH. reflexivity. Qed.

Lemma starts_with_app n b : starts_with n (n ++ b) = true.
Proof.
  induction n as [|x n IH]; simpl; [reflexivity|].
  rewrite Ascii.eqb_refl. exact IH.
Qed.

Lemma starts_with_extend n s b :
  starts_with n s = true -> starts_with n (s ++ b) = true.
Proof.
  revert s. induction n as [|x n IH]; intros s; simpl; [reflexivity|].
  destruct s as [|y s]; simpl; [discriminate|].
  destruct (Ascii.eqb x y); simpl; [apply IH|discriminate].
Qed.

Lemma includes_extend n s b : includes n s = true -> includes n (s ++ b) = true.
Proof.
  induction s as [|y s IH]; simpl.
  - destruct (starts_with n "") eqn:P; [|discriminate].
    intros _. pose proof (starts_with_extend n "" b P) as Q. simpl in Q.
    destruct b; simpl; rewrite Q; reflexivity.
  - destruct (starts_with n (String y s)) eqn:P.
    + intros _. pose proof (starts_with_extend n (String y s) b P) as Q.
      simpl in Q. rewrite Q. reflexivity.
    + intros H. destruct (starts_with n (String y (s ++ b))); [reflexivity|].
      apply IH, H.
Qed.


Lemma includes_self n b : includes n (n ++ b) = true.
Proof.
  destruct (n ++ b) eqn:E; simpl; rewrite <- E, starts_with_app; reflexivity.
Qed.










End CheckoutFacts.

(** ** Cart side bar and header badge *)

Module CartSidebarFacts.

Import Cart CartSidebar CartFacts.

Lemma ids_of_rewritten (test : CartItem -> bool) (h : CartItem -> CartItem) c :
  (forall item, item_id (h item) = item_id item) ->
  map item_id (map (fun item => if test item then h item else item) c)
  = map item_id c.
Proof.
  intros Hh. rewrite map_map. apply map_ext.
  intros item. destruct (test item); [apply Hh|reflexivity].
Qed.

Lemma NoDup_ids_filter (test : CartItem -> bool) c :
  NoDup (map item_id c) -> NoDup (map item_id (filter test c)).
Proof.
  induction c as [|x c IH]; simpl; [intros; constructor|].
  intros ND. inversion ND as [|? ? Hnotin ND']; subst.
  destruct (test x); simpl; [|apply IH, ND'].
  constructor; [|apply IH, ND'].
  intros Hin. apply Hnotin. apply in_map_iff in Hin.
  destruct Hin as [y [Hy Hin]]. apply filter_In in Hin.
  rewrite <- Hy. apply in_map. apply Hin.
Qed.

Lemma one_line_step c op :
  one_line_per_product c -> one_line_per_product (step c op).
Proof.
  unfold one_line_per_product. intros ND.
  destruct op as [p|i|i q|]; simpl.
  - apply NoDup_addToCart, ND.
  - apply NoDup_ids_filter, ND.
  - unfold updateQuantity. destruct (q <=? 0).
    + apply NoDup_ids_filter, ND.
    + rewrite (ids_of_rewritten (fun item => item_id item =? i)
                 (fun item => with_quantity item q)); [exact ND|reflexivity].
  - constructor.
Qed.

(** X1: every cart reached from the empty cart by adds, removals, quantity
    updates and clears holds at most one line item per product id. *)
Theorem cart_one_line_per_product :
  forall ops : list CartOp, one_line_per_product (run ops []).
Proof.
  intros ops. unfold run.
  assert (G : forall c, one_line_per_product c ->
                        one_line_per_product (fold_left step ops c)).
  { induction ops as [|op ops IH]; intros c H; simpl; [exact H|].
    apply IH, one_line_step, H. }
  apply G. constructor.
Qed.

Lemma count_at_least_lines c :
  positive_quantities c -> Z.of_nat (List.length c) <= cartCount c.
Proof.
  rewrite cartCount_sum. induction 1 as [|x c Hx Hc IH]; simpl; [lia|].
  simpl in IH. lia.
Qed.

(** X2: in every reachable cart the item count is at least the number of
    line items, so the header shows its badge exactly when the side bar
    lists items. *)
Theorem badge_shown_iff_cart_lists_items :
  forall ops : list CartOp,
    let cart := run ops [] in
    Z.of_nat (List.length cart) <= cartCount cart
    /\ badge_shown cart = lists_items cart.
Proof.
  intros ops cart.
  assert (P : positive_quantities cart) by (apply positive_run; constructor).
  pose proof (count_at_least_lines cart P) as L.
  split; [exact L|]. unfold badge_shown, lists_items.
  destruct cart as [|x c]; [reflexivity|].
  simpl List.length in *. simpl (0 <? S _)%nat.
  apply Z.ltb_lt. lia.
Qed.

Lemma same_id_same_item c a b :
  NoDup (map item_id c) -> In a c -> In b c -> item_id a = item_id b -> a = b.
Proof.
  intros ND Ha Hb E.
  pose proof (find_unique (item_id b) c a ND Ha E) as Fa.
  pose proof (find_unique (item_id b) c b ND Hb eq_refl) as Fb.
  congruence.
Qed.

Lemma with_own_quantity item : with_quantity item (quantity item) = item.
Proof. destruct item; reflexivity. Qed.

(** The sum of a measure over the cart after the line of one product was
    rewritten. *)
Lemma sum_rewrite_one (g : CartItem -> Z) (h : CartItem -> CartItem) c item :
  NoDup (map item_id c) -> In item c ->
  sumZ (map g (map (fun x => if item_id x =? item_id item then h x else x) c))
  = sumZ (map g c) - g item + g (h item).
Proof.
  induction c as [|x c IH]; simpl; [intros _ []|].
  intros ND Hin. inversion ND as [|? ? Hnotin ND']; subst.
  destruct Hin as [->|Hin].
  - rewrite Z.eqb_refl, map_absent; [lia|].
    apply find_has_id_none. intros y Hy E. apply Hnotin.
    rewrite <- E. apply in_map, Hy.
  - destruct (item_id x =? item_id item) eqn:E.
    + apply Z.eqb_eq in E. exfalso. apply Hnotin. rewrite E.
      apply in_map, Hin.
    + rewrite (IH ND' Hin). lia.
Qed.

Lemma sum_remove_one (g : CartItem -> Z) c item :
  NoDup (map item_id c) -> In item c ->
  sumZ (map g (removeFromCart (item_id item) c)) = sumZ (map g c) - g item.
Proof.
  unfold removeFromCart.
  induction c as [|x c IH]; simpl; [intros _ []|].
  intros ND Hin. inversion ND as [|? ? Hnotin ND']; subst.
  destruct Hin as [->|Hin].
  - rewrite Z.eqb_refl; simpl.
    assert (F : filter (fun i => negb (item_id i =? item_id item)) c = c).
    { apply (updateQuantity_lacking (item_id item) 0 c).
      apply find_has_id_none. intros y Hy E. apply Hnotin.
      rewrite <- E. apply in_map, Hy. }
    rewrite F. lia.
  - destruct (item_id x =? item_id item) eqn:E.
    + apply Z.eqb_eq in E. exfalso. apply Hnotin. rewrite E.
      apply in_map, Hin.
    + simpl. rewrite (IH ND' Hin). lia.
Qed.

Lemma line_of_in productId c item :
  line_of productId c = Some item -> In item c /\ item_id item = productId.
Proof.
  intros F. apply find_some in F. destruct F as [Hin Hid].
  split; [exact Hin|]. apply Z.eqb_eq. exact Hid.
Qed.

Lemma updateQuantity_positive productId q c :
  0 < q ->
  updateQuantity productId q c
  = map (fun item => if item_id item =? productId
                     then with_quantity item q else item) c.
Proof.
  intros Hq. unfold updateQuantity.
  destruct (q <=? 0) eqn:E; [apply Z.leb_le in E; lia|reflexivity].
Qed.

(** X3: with one line item per product, an add raises the item count by
    one and the subtotal by the unit price the cart already holds for the
    product, or by the price of the product when it is new to the cart. *)
Theorem addToCart_totals :
  forall (p : Product) (cartItems : list CartItem),
    one_line_per_product cartItems ->
    cartCount (addToCart p cartItems) = cartCount cartItems + 1
    /\ cartTotal (addToCart p cartItems)
       = cartTotal cartItems
         + match line_of (id p) cartItems with
           | Some item => item_price item
           | None => price p
           end.
Proof.
  intros p c ND. split; [apply cartCount_addToCart, ND|].
  rewrite !cartTotal_sum. unfold addToCart, line_of.
  change (fun item => item_id item =? id p) with (has_id (id p)).
  destruct (find (has_id (id p)) c) as [item|] eqn:F.
  - destruct (line_of_in _ _ _ F) as [Hin Hid].
    rewrite <- Hid.
    rewrite (sum_rewrite_one line_total
               (fun x => with_quantity x (quantity x + 1)) c item ND Hin).
    unfold line_total, item_price, with_quantity; simpl. lia.
  - rewrite map_app, sumZ_app. unfold line_total, item_price; simpl. lia.
Qed.

(** X3 on a cart that holds two units of product 1, for another unit. *)
Lemma addToCart_totals_witness :
  let cart := [ {| product := mkProduct 1 "A" 500; quantity := 2 |} ] in
  cartCount (addToCart (mkProduct 1 "A" 650) cart) = 3
  /\ cartTotal (addToCart (mkProduct 1 "A" 650) cart) = 1500.
Proof.
  intros cart.
  destruct (addToCart_totals (mkProduct 1 "A" 650) cart) as [Hc Ht].
  - repeat constructor. intros [].
  - split; [exact Hc|exact Ht].
Defined.

(** X4: with one line item per product, removing a line item lowers the
    item count by its quantity and the subtotal by its line total. *)
Theorem removeFromCart_totals :
  forall (cartItems : list CartItem) (item : CartItem),
    one_line_per_product cartItems ->
    In item cartItems ->
    cartCount (remove item cartItems) = cartCount cartItems - quantity item
    /\ cartTotal (remove item cartItems)
       = cartTotal cartItems - line_total item.
Proof.
  intros c item ND Hin. unfold remove.
  rewrite !cartCount_sum, !cartTotal_sum.
  split; apply sum_remove_one; assumption.
Qed.

(** X4 on the cart of two units at 500 and one unit at 1200, for the
    first line. *)
Lemma removeFromCart_totals_witness :
  let first := {| product := mkProduct 1 "A" 500; quantity := 2 |} in
  let cart := [ first; {| product := mkProduct 2 "B" 1200; quantity := 1 |} ] in
  cartCount (remove first cart) = 1 /\ cartTotal (remove first cart) = 1200.
Proof.
  intros first cart.
  destruct (removeFromCart_totals cart first) as [Hc Ht].
  - repeat constructor; [intros [H|[]]; discriminate | intros []].
  - left. reflexivity.
  - split; [exact Hc|exact Ht].
Defined.

(** X5: with one line item per product, a quantity update to a positive
    value changes the item count by the difference of the quantities and the
    subtotal by that difference times the unit price of the line. *)
Theorem updateQuantity_totals :
  forall (cartItems : list CartItem) (item : CartItem) (q : Z),
    one_line_per_product cartItems ->
    In item cartItems ->
    0 < q ->
    let updated := updateQuantity (item_id item) q cartItems in
    cartCount updated = cartCount cartItems + (q - quantity item)
    /\ cartTotal updated
       = cartTotal cartItems + item_price item * (q - quantity item).
Proof.
  intros c item q ND Hin Hq updated. subst updated.
  rewrite (updateQuantity_positive _ _ _ Hq).
  rewrite !cartCount_sum, !cartTotal_sum.
  rewrite (sum_rewrite_one quantity (fun x => with_quantity x q) c item ND Hin).
  rewrite (sum_rewrite_one line_total (fun x => with_quantity x q) c item ND Hin).
  unfold line_total, item_price, with_quantity; simpl. lia.
Qed.

(** X5 on the cart of two units at 500 and one unit at 1200, the first
    line set to five units. *)
Lemma updateQuantity_totals_witness :
  let first := {| product := mkProduct 1 "A" 500; quantity := 2 |} in
  let cart := [ first; {| product := mkProduct 2 "B" 1200; quantity := 1 |} ] in
  cartCount (updateQuantity 1 5 cart) = 6
  /\ cartTotal (updateQuantity 1 5 cart) = 3700.
Proof.
  intros first cart.
  destruct (updateQuantity_totals cart first 5) as [Hc Ht].
  - repeat constructor; [intros [H|[]]; discriminate | intros []].
  - left. reflexivity.
  - reflexivity.
  - split; [exact Hc|exact Ht].
Defined.

(** X6: with one line item per product and a positive quantity on the
    line, the plus button sets the line to one unit more, and the minus
    button pressed on that line afterwards gives back the cart as it was. *)
Theorem plus_then_minus :
  forall (cartItems : list CartItem) (item : CartItem),
    one_line_per_product cartItems ->
    In item cartItems ->
    0 < quantity item ->
    let raised := with_quantity item (quantity item + 1) in
    line_of (item_id item) (plus item cartItems) = Some raised
    /\ minus raised (plus item cartItems) = cartItems.
Proof.
  intros c item ND Hin Hq raised.
  assert (Hplus : plus item c
                  = map (fun x => if item_id x =? item_id item
                                  then with_quantity x (quantity item + 1)
                                  else x) c).
  { unfold plus. apply updateQuantity_positive. lia. }
  split.
  - rewrite Hplus. unfold line_of.
    rewrite (find_map_ids (item_id item)
               (fun x => if item_id x =? item_id item
                         then with_quantity x (quantity item + 1) else x)).
    + rewrite (find_unique (item_id item) c item ND Hin eq_refl). simpl.
      rewrite Z.eqb_refl. reflexivity.
    + intros x. destruct (item_id x =? item_id item); reflexivity.
  - unfold minus. rewrite Hplus.
    replace (quantity raised - 1) with (quantity item)
      by (unfold raised; simpl; lia).
    rewrite (updateQuantity_positive _ _ _ Hq), map_map.
    rewrite <- (map_id c) at 2. apply map_ext_in.
    intros x Hx. change (item_id raised) with (item_id item).
    destruct (item_id x =? item_id item) eqn:E.
    + unfold item_id at 1; simpl. fold (item_id x). rewrite E.
      apply Z.eqb_eq in E.
      rewrite (same_id_same_item c x item ND Hx Hin E).
      unfold with_quantity; simpl. destruct item; reflexivity.
    + rewrite E. reflexivity.
Qed.

(** X6 on the cart of two units at 500 and one unit at 1200, for the
    first line. *)
Lemma plus_then_minus_witness :
  let first := {| product := mkProduct 1 "A" 500; quantity := 2 |} in
  let cart := [ first; {| product := mkProduct 2 "B" 1200; quantity := 1 |} ] in
  minus (with_quantity first 3) (plus first cart) = cart.
Proof.
  intros first cart.
  destruct (plus_then_minus cart first) as [_ H].
  - repeat constructor; [intros [H|[]]; discriminate | intros []].
  - left. reflexivity.
  - reflexivity.
  - exact H.
Defined.

(** X7: with one line item per product, adding a product the cart holds
    is the plus button of its line. *)
Theorem addToCart_present_is_plus :
  forall (p : Product) (cartItems : list CartItem) (item : CartItem),
    one_line_per_product cartItems ->
    line_of (id p) cartItems = Some item ->
    0 <= quantity item ->
    addToCart p cartItems = plus item cartItems.
Proof.
  intros p c item ND F Hq.
  destruct (line_of_in _ _ _ F) as [Hin Hid].
  unfold plus. rewrite updateQuantity_positive by lia.
  unfold addToCart, line_of in *.
  change (fun x => item_id x =? id p) with (has_id (id p)).
  rewrite F, Hid. apply map_ext_in.
  intros x Hx. destruct (item_id x =? id p) eqn:E; [|reflexivity].
  apply Z.eqb_eq in E.
  rewrite (same_id_same_item c x item ND Hx Hin); [reflexivity|congruence].
Qed.

(** X7 on a cart that holds two units of product 1. *)
Lemma addToCart_present_is_plus_witness :
  let first := {| product := mkProduct 1 "A" 500; quantity := 2 |} in
  addToCart (mkProduct 1 "A" 500) [first] = plus first [first].
Proof.
  intros first.
  apply (addToCart_present_is_plus (mkProduct 1 "A" 500) [first] first).
  - repeat constructor. intros [].
  - reflexivity.
  - discriminate.
Defined.

End CartSidebarFacts.

(** ** Session across calls and reloads *)

Module SessionFacts.

Import Auth Session AuthFacts.

Local Open Scope string_scope.

(** The state a call leaves, case by case. *)
Lemma after_cases c s :
  after c s = s
  \/ (exists e pw u,
        c = Login e pw /\ find (matches e pw) (users s) = Some u
        /\ after c s
           = {| currentUser := Some (redact u); users := users s;
                ls_users := ls_users s;
                ls_currentUser := Some (redact u) |})
  \/ (c = Logout
      /\ after c s
         = {| currentUser := None; users := users s; ls_users := ls_users s;
              ls_currentUser := None |})
  \/ (exists n e pw,
        c = Register n e pw
        /\ existsb (same_email e) (users s) = false
        /\ after c s
           = {| currentUser := currentUser s;
                users := (users s
                          ++ [{| name := n; email := e; password := pw |}])%list;
                ls_users :=
                  Some (users s
                        ++ [{| name := n; email := e; password := pw |}])%list;
                ls_currentUser := ls_currentUser s |}).
Proof.
  unfold after. destruct c as [e pw| |n e pw]; simpl.
  - destruct (find (matches e pw) (users s)) as [u|] eqn:F.
    + right; left. exists e, pw, u.
      rewrite (login_found _ _ _ _ _ F). auto.
    + left. rewrite (login_not_found _ _ _ _ F). reflexivity.
  - right; right; left. auto.
  - destruct (existsb (same_email e) (users s)) eqn:X.
    + left. rewrite (register_taken _ _ _ _ _ X). reflexivity.
    + right; right; right. exists n, e, pw.
      rewrite (register_fresh _ _ _ _ _ X). auto.
Qed.

Lemma mirrored_after c s : mirrored s -> mirrored (after c s).
Proof.
  intros [Hc Hu].
  destruct (after_cases c s)
    as [E|[(e & pw & u & _ & _ & E)|[(_ & E)|(n & e & pw & _ & _ & E)]]];
    rewrite E; unfold mirrored; simpl; auto.
Qed.

Lemma session_of_registry_after c s :
  session_of_registry s -> session_of_registry (after c s).
Proof.
  intros H.
  destruct (after_cases c s)
    as [E|[(e & pw & u & _ & F & E)|[(_ & E)|(n & e & pw & _ & _ & E)]]];
    rewrite E; unfold session_of_registry in *; simpl; auto.
  - exists u. split; [apply (find_some _ _ F)|reflexivity].
  - destruct (currentUser s) as [v|]; [|exact I].
    destruct H as [stored [Hin Hv]]. exists stored.
    split; [apply in_or_app; left; exact Hin|exact Hv].
Qed.

(** X8: in every state reached from the empty registry, the session is
    absent or the redacted form of a stored identity, it carries no
    password, and the persisted store mirrors the state cells. *)
Theorem session_invariants :
  forall s : Store,
    reachable s ->
    session_of_registry s
    /\ (forall u, currentUser s = Some u -> password u = None)
    /\ mirrored s.
Proof.
  intros s R.
  assert (A : session_of_registry s /\ mirrored s).
  { induction R as [|s c R [IH1 IH2]].
    - split; [exact I|]. split; [reflexivity|right; auto].
    - split; [apply session_of_registry_after, IH1
             |apply mirrored_after, IH2]. }
  destruct A as [A1 A2]. split; [exact A1|]. split; [|exact A2].
  intros u Hu. unfold session_of_registry in A1. rewrite Hu in A1.
  destruct A1 as [stored [_ ->]]. reflexivity.
Qed.

(** X8 at the state reached by a registration and a login. *)
Lemma session_invariants_witness :
  let s := after (Login "ali@example.com" (Some "secret"))
             (after (Register "Ali" "ali@example.com" (Some "secret"))
                    initial) in
  currentUser s
  = Some {| name := "Ali"; email := "ali@example.com"; password := None |}
  /\ session_of_registry s /\ mirrored s.
Proof.
  intros s.
  assert (R : reachable s) by (do 2 apply reach_call; apply reach_initial).
  destruct (session_invariants s R) as (H1 & _ & H3).
  split; [reflexivity|]. split; assumption.
Defined.

(** X9: a reload of the page in a reachable state restores the registry
    and the session from the persisted store: the state is the same. *)
Theorem reload_restores_state :
  forall s : Store, reachable s -> reload s = s.
Proof.
  intros s R.
  assert (M : mirrored s).
  { induction R as [|s c R IH].
    - split; [reflexivity|right; auto].
    - apply mirrored_after, IH. }
  destruct M as [Hc Hu]. destruct s as [cu us lu lc]; simpl in *.
  unfold reload, startup; simpl.
  destruct Hu as [->|[-> ->]]; subst lc; simpl;
    destruct cu; reflexivity.
Qed.

(** X9 at the state reached by a registration and a login. *)
Lemma reload_restores_state_witness :
  let s := after (Login "ali@example.com" (Some "secret"))
             (after (Register "Ali" "ali@example.com" (Some "secret"))
                    initial) in
  reload s = s.
Proof.
  intros s. apply (reload_restores_state s).
  do 2 apply reach_call. apply reach_initial.
Defined.

Lemma users_grow c s : exists more, users (after c s) = (users s ++ more)%list.
Proof.
  destruct (users_after c s) as [E|(n & e & pw & _ & _ & E)]; rewrite E.
  - exists []. symmetry. apply app_nil_r.
  - eexists. reflexivity.
Qed.

Lemma users_grow_all cs s :
  exists more, users (after_all cs s) = (users s ++ more)%list.
Proof.
  revert s. induction cs as [|c cs IH]; intros s; simpl.
  - exists []. symmetry. apply app_nil_r.
  - destruct (IH (after c s)) as [m2 E2]. destruct (users_grow c s) as [m1 E1].
    exists (m1 ++ m2)%list. unfold after_all in *. simpl.
    rewrite E2, E1, app_assoc. reflexivity.
Qed.

Lemma find_in_front {A} (f : A -> bool) l more x :
  find f l = Some x -> find f (l ++ more) = Some x.
Proof.
  induction l as [|y l IH]; simpl; [discriminate|].
  destruct (f y); [auto|exact IH].
Qed.

(** X10: the registry only grows at its end, so credentials that log in
    in some state log in after any further calls, and open the session of the
    same identity. *)
Theorem credentials_stay_valid :
  forall (s : Store) (cs : list Call) (e : string) (pw : option string),
    fst (call (Login e pw) s) = true ->
    let later := after_all cs s in
    (exists more, users later = (users s ++ more)%list)
    /\ fst (call (Login e pw) later) = true
    /\ currentUser (after (Login e pw) later)
       = currentUser (after (Login e pw) s).
Proof.
  intros s cs e pw H later.
  destruct (users_grow_all cs s) as [more E]. fold later in E.
  split; [exists more; exact E|].
  unfold after. simpl in *.
  destruct (find (matches e pw) (users s)) as [u|] eqn:F.
  - rewrite (login_found _ _ _ _ _ F).
    rewrite E, (login_found _ _ _ _ _ (find_in_front _ _ more _ F)).
    split; reflexivity.
  - rewrite (login_not_found _ _ _ _ F) in H. discriminate.
Qed.

(** X10 for the identity registered first, after a logout and a second
    registration. *)
Lemma credentials_stay_valid_witness :
  let s := after (Register "Ali" "ali@example.com" (Some "secret")) initial in
  let later := after_all [Logout; Register "Omar" "omar@example.com" None] s in
  fst (call (Login "ali@example.com" (Some "secret")) later) = true.
Proof.
  intros s later.
  destruct (credentials_stay_valid s
              [Logout; Register "Omar" "omar@example.com" None]
              "ali@example.com" (Some "secret")) as (_ & H & _).
  - reflexivity.
  - exact H.
Defined.

Lemma find_matches_stored us stored :
  NoDup (map email us) -> In stored us ->
  find (matches (email stored) (password stored)) us = Some stored.
Proof.
  induction us as [|x us IH]; simpl; [intros _ []|].
  intros ND Hin. inversion ND as [|? ? Hnotin ND']; subst.
  destruct Hin as [->|Hin].
  - assert (M : matches (email stored) (password stored) stored = true)
      by (apply matches_true; auto).
    rewrite M. reflexivity.
  - destruct (matches (email stored) (password stored) x) eqn:M.
    + apply matches_true in M. destruct M as [He _].
      exfalso. apply Hnotin. rewrite He. apply in_map, Hin.
    + apply IH; assumption.
Qed.

(** X11: in a reachable state with a session, a logout clears the session
    and its persisted record and keeps the registry, and a login with the
    credentials of the identity behind the session opens the same session
    again. *)
Theorem logout_then_login_restores_session :
  forall (s : Store) (u : User),
    reachable s ->
    currentUser s = Some u ->
    let out := after Logout s in
    currentUser out = None
    /\ ls_currentUser out = None
    /\ users out = users s
    /\ exists stored,
         In stored (users s) /\ email stored = email u
         /\ call (Login (email u) (password stored)) out
            = (true, {| currentUser := Some u; users := users s;
                        ls_users := ls_users s;
                        ls_currentUser := Some u |}).
Proof.
  intros s u R Hu out. subst out.
  repeat split.
  pose proof (emails_distinct s R) as ND.
  assert (S : session_of_registry s).
  { clear Hu ND. induction R as [|s c R IH]; [exact I|].
    apply session_of_registry_after, IH. }
  unfold session_of_registry in S. rewrite Hu in S.
  destruct S as [stored [Hin ->]].
  exists stored. split; [exact Hin|]. split; [reflexivity|].
  simpl. change (email (redact stored)) with (email stored).
  rewrite (login_found _ _ _ _ _ (find_matches_stored _ _ ND Hin)).
  reflexivity.
Qed.

(** X11 at the state reached by a registration and a login. *)
Lemma logout_then_login_restores_session_witness :
  let ali := {| name := "Ali"; email := "ali@example.com";
                password := None |} in
  let s := after (Login "ali@example.com" (Some "secret"))
             (after (Register "Ali" "ali@example.com" (Some "secret"))
                    initial) in
  currentUser (after Logout s) = None /\ users (after Logout s) = users s.
Proof.
  intros ali s.
  destruct (logout_then_login_restores_session s ali) as (H1 & _ & H3 & _).
  - do 2 apply reach_call. apply reach_initial.
  - reflexivity.
  - split; [exact H1|exact H3].
Defined.

End SessionFacts.

(** ** Sign-in form *)

Module AuthPageFacts.

Import AuthPage AuthFacts.

Local Open Scope string_scope.

(** X12: a submit of the sign-in form.  In login mode it opens the session
    of the first identity with the entered email and password, clears the
    error and goes to the home fragment; with no such identity it shows the
    message of invalid credentials and leaves registry, session and location
    as they are.  In sign-up mode an email that is already stored gives the
    message of the existing account and changes nothing else; a new email
    appends the identity, clears the error and goes to the home fragment.
    The entered fields stay as they are. *)
Theorem handleSubmit_outcome :
  forall w : World,
    let f := form w in
    let us := Auth.users (store w) in
    let w' := handleSubmit w in
    (isLogin (form w') = isLogin f /\ name (form w') = name f
     /\ email (form w') = email f /\ password (form w') = password f)
    /\ (isLogin f = true ->
        match find (Auth.matches (email f) (Some (password f))) us with
        | Some u =>
            error (form w') = ""
            /\ Router.route (location w') = "#/"
            /\ Auth.currentUser (store w') = Some (Auth.redact u)
            /\ Auth.users (store w') = us
        | None =>
            error (form w') = "Invalid email or password."
            /\ location w' = location w /\ store w' = store w
        end)
    /\ (isLogin f = false ->
        if existsb (Auth.same_email (email f)) us
        then error (form w') = "An account with this email already exists."
             /\ location w' = location w /\ store w' = store w
        else error (form w') = ""
             /\ Router.route (location w') = "#/"
             /\ Auth.users (store w')
                = (us ++ [{| Auth.name := name f; Auth.email := email f;
                             Auth.password := Some (password f) |}])%list).
Proof.
  intros w f us w'. subst f us w'. unfold handleSubmit.
  destruct (isLogin (form w)) eqn:L.
  - destruct (find (Auth.matches (email (form w)) (Some (password (form w))))
                   (Auth.users (store w))) as [u|] eqn:F.
    + rewrite (login_found _ _ _ _ _ F); simpl.
      repeat split; try discriminate; auto.
    + rewrite (login_not_found _ _ _ _ F); simpl.
      repeat split; try discriminate; auto.
  - destruct (existsb (Auth.same_email (email (form w)))
                      (Auth.users (store w))) eqn:X.
    + rewrite (register_taken _ _ _ _ _ X); simpl.
      repeat split; try discriminate; auto.
    + rewrite (register_fresh _ _ _ _ _ X); simpl.
      repeat split; try discriminate; auto.
Qed.

End AuthPageFacts.

(** ** Hero slider *)

Module HeroSliderFacts.

Import HeroSlider.

(** X13: with at least one slide and an index that names a slide, the
    timer and both arrows give an index that names a slide; the right arrow
    does what the timer does, and each arrow undoes the other. *)
Theorem slider_index_in_range :
  forall slides index : Z,
    0 < slides ->
    shows_a_slide slides index ->
    shows_a_slide slides (advance slides index)
    /\ shows_a_slide slides (goToNext slides index)
    /\ shows_a_slide slides (goToPrevious slides index)
    /\ goToNext slides index = advance slides index
    /\ goToPrevious slides (goToNext slides index) = index
    /\ goToNext slides (goToPrevious slides index) = index.
Proof.
  unfold shows_a_slide, advance, goToNext, goToPrevious.
  intros slides index Hs Hi.
  destruct (Z.eqb_spec index (slides - 1)); destruct (Z.eqb_spec index 0);
    repeat split;
    repeat match goal with
           | |- context [Z.eqb ?a ?b] => destruct (Z.eqb_spec a b)
           end; lia.
Qed.

(** X13 for three slides, at the last one. *)
Lemma slider_index_in_range_witness :
  goToNext 3 2 = 0 /\ goToPrevious 3 (goToNext 3 2) = 2.
Proof.
  destruct (slider_index_in_range 3 2) as (_ & _ & _ & _ & H & _).
  - reflexivity.
  - split; [discriminate|reflexivity].
  - split; [reflexivity|exact H].
Defined.

Lemma advance_mod slides index :
  0 < slides -> shows_a_slide slides index ->
  advance slides index = (index + 1) mod slides.
Proof.
  unfold shows_a_slide, advance. intros Hs Hi.
  destruct (Z.eqb_spec index (slides - 1)) as [->|Hne].
  - replace (slides - 1 + 1) with slides by lia.
    symmetry. apply Z_mod_same_full.
  - symmetry. apply Z.mod_small. lia.
Qed.

(** X14: with at least one slide, [k] timer updates from a slide lead to
    the slide [k] places further round the circle, so as many updates as
    there are slides lead back to the starting slide. *)
Theorem slider_cycles :
  forall (slides index : Z) (k : nat),
    0 < slides ->
    shows_a_slide slides index ->
    advance_times slides k index = (index + Z.of_nat k) mod slides
    /\ advance_times slides (Z.to_nat slides) index = index.
Proof.
  intros slides index k Hs Hi.
  assert (G : forall n i, shows_a_slide slides i ->
                advance_times slides n i = (i + Z.of_nat n) mod slides).
  { induction n as [|n IH]; intros i Hin.
    - simpl. rewrite Z.add_0_r. symmetry. apply Z.mod_small. exact Hin.
    - cbn [advance_times]. rewrite IH.
      + rewrite (advance_mod slides i Hs Hin), Z.add_mod_idemp_l by lia.
        f_equal. lia.
      + rewrite (advance_mod slides i Hs Hin).
        apply Z.mod_pos_bound. exact Hs. }
  split; [apply G, Hi|].
  rewrite (G _ _ Hi), Z2Nat.id by lia.
  rewrite <- (Z.mul_1_l slides) at 1. rewrite Z.mod_add by lia.
  apply Z.mod_small. exact Hi.
Qed.

(** X14 for three slides, from the second one. *)
Lemma slider_cycles_witness :
  advance_times 3 3 1 = 1.
Proof.
  destruct (slider_cycles 3 1 3) as [_ H].
  - reflexivity.
  - split; [discriminate|reflexivity].
  - exact H.
Defined.

End HeroSliderFacts.

(** ** Countdown timer *)

Module CountdownTimerFacts.

Import CountdownTimer.

Local Open Scope string_scope.

Lemma calculateTimeLeft_splits_difference_aux difference :
  (0 < difference)%Z ->
  exists d h m s : Z,
    calculateTimeLeft difference
    = [("days", d); ("hours", h); ("minutes", m); ("seconds", s)]
    /\ (0 <= h < 24)%Z /\ (0 <= m < 60)%Z /\ (0 <= s < 60)%Z.
Proof.
  intros H. unfold calculateTimeLeft.
  apply Z.ltb_lt in H. rewrite H.
  do 4 eexists. split; [reflexivity|].
  repeat split; try (apply Z.mod_pos_bound; reflexivity).
Qed.

(** X15: for a positive number of milliseconds the timer object holds the
    keys days, hours, minutes and seconds in this order, with hours below
    24, minutes and seconds below 60 and none negative; together they are
    the difference rounded down to a whole second. *)
Theorem calculateTimeLeft_splits_difference :
  forall difference : Z,
    (0 < difference)%Z ->
    exists d h m s : Z,
      calculateTimeLeft difference
      = [("days", d); ("hours", h); ("minutes", m); ("seconds", s)]
      /\ (0 <= d /\ 0 <= h < 24 /\ 0 <= m < 60 /\ 0 <= s < 60)%Z
      /\ (let whole :=
            d * 86400000 + h * 3600000 + m * 60000 + s * 1000 in
          whole <= difference < whole + 1000)%Z.
Proof.
  intros difference H. unfold calculateTimeLeft.
  apply Z.ltb_lt in H. rewrite H. apply Z.ltb_lt in H.
  do 4 eexists. split; [reflexivity|].
  cbv zeta. change (1000 * 60 * 60 * 24)%Z with 86400000%Z.
  change (1000 * 60 * 60)%Z with 3600000%Z.
  Z.to_euclidean_division_equations. lia.
Qed.

(** X15 for one day, one hour, one minute, one second and a half. *)
Lemma calculateTimeLeft_splits_difference_witness :
  exists d h m s : Z,
    calculateTimeLeft 90061500
    = [("days", d); ("hours", h); ("minutes", m); ("seconds", s)]
    /\ (0 <= d /\ 0 <= h < 24 /\ 0 <= m < 60 /\ 0 <= s < 60)%Z
    /\ (let whole := d * 86400000 + h * 3600000 + m * 60000 + s * 1000 in
        whole <= 90061500 < whole + 1000)%Z.
Proof.
  apply (calculateTimeLeft_splits_difference 90061500). reflexivity.
Defined.

Lemma padStart2_length s : (2 <= String.length (padStart2 s))%nat.
Proof.
  destruct s as [|a [|b s]]; simpl; lia.
Qed.

Lemma two_digits_below_100 n :
  (0 <= n < 100)%Z ->
  String.length (padStart2 (Checkout.numberToString n)) = 2%nat.
Proof.
  intros Hn.
  assert (A : forallb
                (fun k => Nat.eqb
                            (String.length
                               (padStart2
                                  (Checkout.numberToString (Z.of_nat k)))) 2)
                (seq 0 100) = true) by (vm_compute; reflexivity).
  rewrite forallb_forall in A.
  specialize (A (Z.to_nat n)). rewrite Z2Nat.id in A by lia.
  apply Nat.eqb_eq, A, in_seq. lia.
Qed.

(** X16: the timer shows the text of the elapsed time exactly when the
    difference is zero or negative; otherwise it shows four boxes, for days,
    hours, minutes and seconds, each text with at least two characters and
    those of hours, minutes and seconds with exactly two. *)
Theorem shown_times_up_iff_not_positive :
  forall difference : Z,
    (shown difference = TimesUp <-> (difference <= 0)%Z)
    /\ ((0 < difference)%Z ->
        exists d h m s : string,
          shown difference
          = Boxes [("days", d); ("hours", h); ("minutes", m); ("seconds", s)]
          /\ (2 <= String.length d)%nat
          /\ String.length h = 2%nat
          /\ String.length m = 2%nat
          /\ String.length s = 2%nat).
Proof.
  intros difference. split.
  - unfold shown, calculateTimeLeft.
    destruct (Z.ltb_spec 0 difference) as [H|H]; simpl.
    + split; [discriminate|lia].
    + split; [intros _; exact H|reflexivity].
  - intros H.
    destruct (calculateTimeLeft_splits_difference_aux difference H)
      as (d & h & m & s & E & Hh & Hm & Hs).
    unfold shown. rewrite E. simpl.
    do 4 eexists. split; [reflexivity|].
    split; [apply padStart2_length|].
    repeat split; apply two_digits_below_100; lia.
Qed.

End CountdownTimerFacts.

(** ** Catalogue: search, product links and the detail page *)

Module CatalogueFacts.

Import Cart Catalogue Router RouterFacts CheckoutFacts.

Local Open Scope string_scope.

Lemma parse_uint_acc (d : Decimal.uint) (p : positive) :
  fold_left (fun acc c => (10 * acc + digit_value c)%Z)
            (list_ascii_of_string (DecimalString.NilEmpty.string_of_uint d))
            (Z.pos p)
  = Z.pos (Pos.of_uint_acc d p).
Proof.
  revert p.
  induction d; intros p;
    cbn [DecimalString.NilEmpty.string_of_uint list_ascii_of_string
         fold_left Pos.of_uint_acc];
    [reflexivity | rewrite <- IHd; f_equal ..];
    match goal with
    | |- context [digit_value ?c] =>
        let v := eval vm_compute in (digit_value c) in
        change (digit_value c) with v
    end; lia.
Qed.

Lemma parse_uint (d : Decimal.uint) :
  fold_left (fun acc c => (10 * acc + digit_value c)%Z)
            (list_ascii_of_string (DecimalString.NilEmpty.string_of_uint d))
            0%Z
  = Z.of_N (Pos.of_uint d).
Proof.
  induction d;
    cbn [DecimalString.NilEmpty.string_of_uint list_ascii_of_string
         fold_left Pos.of_uint];
    [reflexivity | exact IHd | apply (parse_uint_acc d) ..].
Qed.

Lemma digits_uint (d : Decimal.uint) :
  all_digits (DecimalString.NilEmpty.string_of_uint d) = true.
Proof.
  unfold all_digits. induction d; simpl; try reflexivity; exact IHd.
Qed.

(** The decimal text of a number that is not negative: digits only, at
    least one, and [parseInt] reads the number back. *)
Lemma numberToString_parseInt z :
  (0 <= z)%Z ->
  Checkout.numberToString z <> ""
  /\ all_digits (Checkout.numberToString z) = true
  /\ parseInt (Checkout.numberToString z) = z.
Proof.
  intros Hz. unfold Checkout.numberToString, parseInt.
  destruct z as [|p|p]; [repeat split; discriminate| |lia].
  simpl. unfold DecimalString.NilZero.string_of_uint.
  pose proof (DecimalPos.Unsigned.to_uint_nonnil p) as Hnil.
  pose proof (DecimalPos.Unsigned.of_to p) as Hof.
  destruct (Pos.to_uint p) eqn:E; try contradiction;
    (split; [discriminate|]);
    (split; [rewrite <- E at 1; rewrite E; apply digits_uint|]);
    rewrite parse_uint, Hof; reflexivity.
Qed.

Lemma renderPage_product_fragment_of p :
  (0 <= id p)%Z ->
  renderPage (product_fragment_of p) = ProductDetailPage (id p).
Proof.
  intros Hid. unfold product_fragment_of, renderPage.
  destruct (numberToString_parseInt (id p) Hid) as (Hne & Hd & Hp).
  rewrite (productMatch_digits _ Hne Hd), Hp. reflexivity.
Qed.

(** X17: for a product whose id is not negative, the fragment a product
    card navigates to is dispatched to the detail page of that id: the
    decimal text of the id is read back by the route pattern. *)
Theorem product_link_round_trip :
  forall (p : Product) (l : Location),
    (0 <= id p)%Z ->
    route (onProductSelect p l) = "#/product/" ++ Checkout.numberToString (id p)
    /\ renderPage (route (onProductSelect p l)) = ProductDetailPage (id p).
Proof.
  intros p l Hid. split; [reflexivity|].
  apply renderPage_product_fragment_of, Hid.
Qed.

(** X17 for product 42. *)
Lemma product_link_round_trip_witness :
  renderPage (route (onProductSelect (mkProduct 42 "Shilajit" 1500)
                                     (initialLocation "")))
  = ProductDetailPage 42.
Proof.
  destruct (product_link_round_trip (mkProduct 42 "Shilajit" 1500)
                                    (initialLocation "")) as [_ H].
  - discriminate.
  - exact H.
Defined.

Lemma find_by_id PRODUCTS p :
  NoDup (map id PRODUCTS) -> In p PRODUCTS ->
  find (fun x => (id x =? id p)%Z) PRODUCTS = Some p.
Proof.
  induction PRODUCTS as [|x ps IH]; simpl; [intros _ []|].
  intros ND Hin. inversion ND as [|? ? Hnotin ND']; subst.
  destruct Hin as [->|Hin].
  - rewrite Z.eqb_refl. reflexivity.
  - destruct (id x =? id p)%Z eqn:E.
    + apply Z.eqb_eq in E. exfalso. apply Hnotin. rewrite E.
      apply in_map, Hin.
    + apply IH; assumption.
Qed.

(** X18: when the ids of the catalogue are pairwise distinct and not
    negative, selecting a product of the catalogue leads to the detail page
    that shows this very product; an id the catalogue lacks gives the view of
    the missing product. *)
Theorem selected_product_is_shown :
  forall (PRODUCTS : list Product) (p : Product) (l : Location),
    NoDup (map id PRODUCTS) ->
    (0 <= id p)%Z ->
    (In p PRODUCTS -> shown_product PRODUCTS (onProductSelect p l) = Some p)
    /\ (~ In (id p) (map id PRODUCTS) ->
        shown_product PRODUCTS (onProductSelect p l) = None).
Proof.
  intros PRODUCTS p l ND Hid.
  unfold shown_product, onProductSelect, handleSetRoute; simpl.
  rewrite (renderPage_product_fragment_of p Hid). unfold detail_product.
  split.
  - intros Hin. apply find_by_id; assumption.
  - intros Hn.
    destruct (find (fun x => (id x =? id p)%Z) PRODUCTS) as [x|] eqn:F;
      [|reflexivity].
    apply find_some in F. destruct F as [Hin E]. apply Z.eqb_eq in E.
    exfalso. apply Hn. rewrite <- E. apply in_map, Hin.
Qed.

(** X18 for a catalogue of two products. *)
Lemma selected_product_is_shown_witness :
  let a := mkProduct 1 "Shilajit" 1500 in
  let b := mkProduct 2 "Apricot Oil" 900 in
  shown_product [a; b] (onProductSelect b (initialLocation "")) = Some b.
Proof.
  intros a b.
  destruct (selected_product_is_shown [a; b] b (initialLocation ""))
    as [H _].
  - repeat constructor; [intros [H|[]]; discriminate | intros []].
  - discriminate.
  - apply H. right; left; reflexivity.
Defined.

Lemma includes_whole s : Checkout.includes s s = true.
Proof.
  rewrite <- (append_nil_r s) at 2. apply includes_self.
Qed.

Lemma includes_empty s : Checkout.includes "" s = true.
Proof. destruct s; reflexivity. Qed.

(** X19: a search for the exact name or the exact category of a product
    of the catalogue finds that product, whatever the case mapping does; and
    a search returns products of the catalogue only. *)
Theorem search_finds_own_name :
  forall (PRODUCTS : list Product) (toLowerCase : string -> string)
         (p : Product),
    In p PRODUCTS ->
    In p (filteredProducts PRODUCTS toLowerCase (name p))
    /\ In p (filteredProducts PRODUCTS toLowerCase (category p))
    /\ forall searchQuery x,
         In x (filteredProducts PRODUCTS toLowerCase searchQuery) ->
         In x PRODUCTS.
Proof.
  intros PRODUCTS toLowerCase p Hin. unfold filteredProducts.
  split; [|split].
  - apply filter_In. split; [exact Hin|].
    rewrite includes_whole. reflexivity.
  - apply filter_In. split; [exact Hin|].
    rewrite includes_whole. apply orb_true_r.
  - intros q x Hx. apply filter_In in Hx. apply Hx.
Qed.

(** X19 for a catalogue of two products and a case mapping that changes
    nothing. *)
Lemma search_finds_own_name_witness :
  let a := mkProduct 1 "Shilajit" 1500 in
  let b := mkProduct 2 "Apricot Oil" 900 in
  In b (filteredProducts [a; b] (fun s => s) "Apricot Oil").
Proof.
  intros a b.
  destruct (search_finds_own_name [a; b] (fun s => s) b) as [H _].
  - right; left; reflexivity.
  - exact H.
Defined.

(** X20: when the case mapping sends the empty string to itself, the
    empty search query leaves the catalogue as it is: every product is
    listed, in catalogue order. *)
Theorem empty_search_lists_catalogue :
  forall (PRODUCTS : list Product) (toLowerCase : string -> string),
    toLowerCase "" = "" ->
    filteredProducts PRODUCTS toLowerCase "" = PRODUCTS.
Proof.
  intros PRODUCTS toLowerCase Hempty. unfold filteredProducts.
  rewrite Hempty. induction PRODUCTS as [|x ps IH]; simpl; [reflexivity|].
  rewrite includes_empty. simpl. rewrite IH. reflexivity.
Qed.

(** X20 for a catalogue of two products and a case mapping that changes
    nothing. *)
Lemma empty_search_lists_catalogue_witness :
  let catalogue := [mkProduct 1 "Shilajit" 1500;
                    mkProduct 2 "Apricot Oil" 900] in
  filteredProducts catalogue (fun s => s) "" = catalogue.
Proof.
  intros catalogue.
  apply (empty_search_lists_catalogue catalogue (fun s => s)). reflexivity.
Defined.




End CatalogueFacts.

(** ** Deep links and order confirmation *)

Module OrderConfirmationFacts.

Import Cart Checkout OrderConfirmation CheckoutFacts.

Local Open Scope string_scope.

Lemma chars_app a b :
  list_ascii_of_string (a ++ b)
  = (list_ascii_of_string a ++ list_ascii_of_string b)%list.
Proof. induction a as [|x a IH]; simpl; [reflexivity|]. rewrite IH. reflexivity. Qed.

Lemma hex_digit_encoded (c : ascii) :
  encoded_char (hex_digit (N_of_ascii c / 16)) = true
  /\ encoded_char (hex_digit (N_of_ascii c mod 16)) = true.
Proof.
  destruct c as [[] [] [] [] [] [] [] []]; split; vm_compute; reflexivity.
Qed.

Lemma encoded_chars s c :
  In c (list_ascii_of_string (encodeURIComponent s)) -> encoded_char c = true.
Proof.
  induction s as [|x s IH]; simpl; [intros []|].
  destruct (unreserved x) eqn:U; simpl.
  - intros [<-|H]; [|exact (IH H)].
    unfold encoded_char. rewrite U. reflexivity.
  - destruct (hex_digit_encoded x) as [H1 H2].
    intros [<-|[<-|[<-|H]]]; auto.
Qed.

(** X22: a percent-encoded text consists of unreserved characters, the
    percent sign and upper-case hexadecimal digits only; no separator of a
    link (ampersand, question mark, hash, equals sign, slash, plus, space,
    line feed) occurs in it. *)
Theorem encodeURIComponent_is_link_safe :
  forall s : string,
    all_chars encoded_char (encodeURIComponent s) = true
    /\ forall c, In c (list_ascii_of_string ("&?#=/+ " ++ nl)) ->
         ~ In c (list_ascii_of_string (encodeURIComponent s)).
Proof.
  intros s. split.
  - unfold all_chars. apply forallb_forall. intros c. apply encoded_chars.
  - intros c Hsep Hin. apply encoded_chars in Hin.
    simpl in Hsep.
    repeat (destruct Hsep as [<-|Hsep]; [discriminate Hin|]).
    destruct Hsep.
Qed.

Lemma hex_digit_code k :
  (k < 16)%N ->
  N_of_ascii (hex_digit k) = (if (k <? 10)%N then 48 + k else 55 + k)%N.
Proof.
  intros Hk. unfold hex_digit.
  destruct (N.ltb_spec k 10); apply N_ascii_embedding; lia.
Qed.

Lemma hex_digit_injective k1 k2 :
  (k1 < 16)%N -> (k2 < 16)%N -> hex_digit k1 = hex_digit k2 -> k1 = k2.
Proof.
  intros H1 H2 E. apply (f_equal N_of_ascii) in E.
  rewrite !hex_digit_code in E by assumption.
  destruct (N.ltb_spec k1 10), (N.ltb_spec k2 10); lia.
Qed.

Lemma code_below_256 c : (N_of_ascii c < 256)%N.
Proof. apply N_ascii_bounded. Qed.

Lemma percent_reserved : unreserved "%" = false.
Proof. reflexivity. Qed.

(** X23: percent-encoding loses nothing: two texts with the same encoding
    are the same text. *)
Theorem encodeURIComponent_injective :
  forall s1 s2 : string,
    encodeURIComponent s1 = encodeURIComponent s2 -> s1 = s2.
Proof.
  induction s1 as [|c1 s1 IH]; intros [|c2 s2]; simpl.
  - reflexivity.
  - destruct (unreserved c2); discriminate.
  - destruct (unreserved c1); discriminate.
  - destruct (unreserved c1) eqn:U1, (unreserved c2) eqn:U2; intros E.
    + inversion E. f_equal. apply IH. assumption.
    + inversion E as [[Hc He]]. subst c1.
      rewrite percent_reserved in U1. discriminate.
    + inversion E as [[Hc He]]. subst c2.
      rewrite percent_reserved in U2. discriminate.
    + inversion E as [[Hhi Hlo He]].
      pose proof (code_below_256 c1) as B1.
      pose proof (code_below_256 c2) as B2.
      apply hex_digit_injective in Hhi;
        [|apply N.Div0.div_lt_upper_bound; lia
         |apply N.Div0.div_lt_upper_bound; lia].
      apply hex_digit_injective in Hlo;
        [|apply N.mod_lt; lia|apply N.mod_lt; lia].
      assert (Hn : N_of_ascii c1 = N_of_ascii c2).
      { rewrite (N.div_mod (N_of_ascii c1) 16),
                (N.div_mod (N_of_ascii c2) 16) by lia.
        rewrite Hhi, Hlo. reflexivity. }
      f_equal; [|apply IH, He].
      rewrite <- (ascii_N_embedding c1), <- (ascii_N_embedding c2), Hn.
      reflexivity.
Qed.

(** X23 at the text of an amount. *)
Lemma encodeURIComponent_injective_witness :
  encodeURIComponent "Rs 1500" = encodeURIComponent "Rs 1500"
  /\ "Rs 1500" = "Rs 1500".
Proof.
  split; [reflexivity|].
  apply (encodeURIComponent_injective "Rs 1500" "Rs 1500"). reflexivity.
Defined.

Lemma clean_phone_chars s c :
  In c (list_ascii_of_string (clean_phone s)) -> phone_char c = true.
Proof.
  induction s as [|x s IH]; simpl; [intros []|].
  destruct (phone_char x) eqn:P; simpl; [|exact IH].
  intros [<-|H]; [exact P|exact (IH H)].
Qed.

Lemma clean_phone_fixed s :
  all_chars phone_char s = true -> clean_phone s = s.
Proof.
  unfold all_chars. induction s as [|x s IH]; simpl; [reflexivity|].
  intros H. apply andb_true_iff in H. destruct H as [Hx Hs].
  rewrite Hx, (IH Hs). reflexivity.
Qed.

(** X24: the phone number put into the WhatsApp link of the confirmation
    consists of digits and plus signs only, in the order entered; a number
    that consists of such characters is taken as it is, so cleaning twice is
    cleaning once; the link is the fixed prefix, that number and the
    percent-encoded message. *)
Theorem confirmation_link_phone_is_clean :
  forall (placed : PlacedOrder) (s : PageState),
    let number := clean_phone (phone (details placed)) in
    all_chars phone_char number = true
    /\ clean_phone number = number
    /\ (all_chars phone_char (phone (details placed)) = true ->
        number = phone (details placed))
    /\ opened (handleSendConfirmationToWhatsApp placed s)
       = List.app (opened s)
           ["https://wa.me/" ++ number ++ "?text="
            ++ encodeURIComponent (constructUserConfirmationMessage placed)].
Proof.
  intros placed s number.
  assert (A : all_chars phone_char number = true).
  { unfold all_chars. apply forallb_forall. intros c.
    apply clean_phone_chars. }
  split; [exact A|]. split; [apply clean_phone_fixed, A|].
  split; [apply clean_phone_fixed|reflexivity].
Qed.

Lemma remove_stars_chars s c :
  In c (list_ascii_of_string (remove_stars s)) ->
  c <> "*"%char /\ In c (list_ascii_of_string s).
Proof.
  induction s as [|x s IH]; simpl; [intros []|].
  destruct (Ascii.eqb_spec x "*") as [->|Hne]; simpl.
  - intros H. destruct (IH H). auto.
  - intros [<-|H]; [auto|]. destruct (IH H). auto.
Qed.

Lemma hex_digit_not_star k : (k < 16)%N -> hex_digit k <> "*"%char.
Proof.
  intros Hk E. apply (f_equal N_of_ascii) in E.
  rewrite hex_digit_code in E by exact Hk.
  change (N_of_ascii "*") with 42%N in E.
  destruct (k <? 10)%N; lia.
Qed.

Lemma encode_keeps_star_free s :
  ~ In "*"%char (list_ascii_of_string s) ->
  ~ In "*"%char (list_ascii_of_string (encodeURIComponent s)).
Proof.
  induction s as [|x s IH]; simpl; [auto|].
  intros Hn. pose proof (code_below_256 x) as B.
  destruct (unreserved x); simpl.
  - intros [E|H]; [apply Hn; left; exact E|].
    apply IH; [|exact H]. intros Hs. apply Hn. right. exact Hs.
  - intros [E|[E|[E|H]]]; try discriminate E.
    + apply hex_digit_not_star in E; [exact E|].
      apply N.Div0.div_lt_upper_bound. lia.
    + apply hex_digit_not_star in E; [exact E|].
      apply N.mod_lt. lia.
    + apply IH; [|exact H]. intros Hs. apply Hn. right. exact Hs.
Qed.

Lemma encoded_stripped_star_free s :
  ~ In "*"%char (list_ascii_of_string (encodeURIComponent (remove_stars s))).
Proof.
  apply encode_keeps_star_free. intros H.
  apply remove_stars_chars in H. destruct H as [H _]. apply H. reflexivity.
Qed.

Lemma star_free_app a b :
  ~ In "*"%char (list_ascii_of_string a) ->
  ~ In "*"%char (list_ascii_of_string b) ->
  ~ In "*"%char (list_ascii_of_string (a ++ b)).
Proof.
  intros Ha Hb H. rewrite chars_app in H.
  apply in_app_or in H. destruct H; auto.
Qed.

Lemma all_chars_star_free s :
  all_chars (fun c => negb (Ascii.eqb c "*")) s = true ->
  ~ In "*"%char (list_ascii_of_string s).
Proof.
  unfold all_chars. intros A H.
  rewrite forallb_forall in A. apply A in H. discriminate H.
Qed.

Lemma opened_handleEmailOrder b cart s :
  opened (handleEmailOrder b cart s)
  = List.app (opened s)
      ["mailto:support@skarduorganic.com?subject="
       ++ encodeURIComponent "New Order from Skardu Organic"
       ++ "&body="
       ++ encodeURIComponent (remove_stars (constructStoreOrderMessage b cart))].
Proof. reflexivity. Qed.

(** X25: the email links to the store, for an order and for an inquiry,
    hold no asterisk, whatever the customer typed; a text without asterisks
    passes the stripping unchanged. *)
Theorem store_email_links_hold_no_asterisk :
  forall (b : BillingDetails) (cart : list CartItem) (s : PageState)
         (formData : ContactPage.FormData),
    (exists url,
       opened (handleEmailOrder b cart s) = List.app (opened s) [url]
       /\ ~ In "*"%char (list_ascii_of_string url))
    /\ ~ In "*"%char (list_ascii_of_string (ContactPage.mailtoUrl formData))
    /\ forall text,
         ~ In "*"%char (list_ascii_of_string text) ->
         remove_stars text = text.
Proof.
  intros b cart s formData. split; [|split].
  - eexists. split; [apply opened_handleEmailOrder|].
    apply star_free_app; [apply all_chars_star_free; reflexivity|].
    apply star_free_app; [apply all_chars_star_free; reflexivity|].
    apply star_free_app; [apply all_chars_star_free; reflexivity|].
    apply encoded_stripped_star_free.
  - unfold ContactPage.mailtoUrl.
    apply star_free_app; [apply all_chars_star_free; reflexivity|].
    apply star_free_app; [apply all_chars_star_free; reflexivity|].
    apply star_free_app; [apply all_chars_star_free; reflexivity|].
    apply encoded_stripped_star_free.
  - intros text. induction text as [|x t IH]; simpl; [reflexivity|].
    intros Hn. destruct (Ascii.eqb_spec x "*") as [->|Hne].
    + exfalso. apply Hn. left. reflexivity.
    + rewrite IH; [reflexivity|]. intros H. apply Hn. right. exact H.
Qed.




End OrderConfirmationFacts.

(** ** Clock *)

Module DateTimeFacts.

Import DateTime CheckoutFacts.

Local Open Scope string_scope.

Lemma string_length_app a b :
  String.length (a ++ b) = (String.length a + String.length b)%nat.
Proof. induction a as [|x a IH]; simpl; [reflexivity|]. rewrite IH. reflexivity. Qed.

Lemma slice0_app n a b :
  String.length a = n -> slice0 n (a ++ b) = a.
Proof.
  revert n. induction a as [|x a IH]; intros n Hn; simpl in *.
  - subst n. destruct b; reflexivity.
  - destruct n as [|n]; [discriminate|]. simpl. f_equal. apply IH. lia.
Qed.

Lemma replace_first_T_app a b :
  has_no_T a ->
  replace_first_T (a ++ String "T" b) = a ++ String " " b.
Proof.
  unfold has_no_T. induction a as [|x a IH]; intros Hn; simpl.
  - reflexivity.
  - destruct (Ascii.eqb_spec x "T") as [->|Hne].
    + exfalso. apply (Hn "T"%char); [left|]; reflexivity.
    + f_equal. apply IH. intros c Hc. apply Hn. right. exact Hc.
Qed.

(** X27: for a timestamp of the shape date, [T], time, rest, with ten
    characters of date without a [T] and eight characters of time, the clock
    shows the date, a space and the time, nineteen characters in all. *)
Theorem currentTime_of_iso :
  forall date time rest : string,
    String.length date = 10%nat ->
    String.length time = 8%nat ->
    has_no_T date ->
    currentTime (date ++ "T" ++ time ++ rest) = date ++ " " ++ time
    /\ String.length (currentTime (date ++ "T" ++ time ++ rest)) = 19%nat.
Proof.
  intros date time rest Hd Ht Hn.
  assert (E : currentTime (date ++ "T" ++ time ++ rest) = date ++ " " ++ time).
  { unfold currentTime.
    replace (date ++ "T" ++ time ++ rest)
      with ((date ++ "T" ++ time) ++ rest)
      by (rewrite !append_assoc; reflexivity).
    rewrite slice0_app.
    - apply (replace_first_T_app date time Hn).
    - rewrite !string_length_app. simpl. lia. }
  split; [exact E|]. rewrite E, !string_length_app. simpl. lia.
Qed.

(** X27 at a timestamp of the year 2025. *)
Lemma currentTime_of_iso_witness :
  currentTime "2025-01-31T23:59:07.123Z" = "2025-01-31 23:59:07".
Proof.
  destruct (currentTime_of_iso "2025-01-31" "23:59:07" ".123Z") as [H _].
  - reflexivity.
  - reflexivity.
  - intros c Hc. simpl in Hc.
    repeat (destruct Hc as [<-|Hc]; [discriminate|]). destruct Hc.
  - exact H.
Defined.

End DateTimeFacts.
